(** * Chyrp backend: relational model and endpoint logic

    A shallow embedding of [chyrp-backend/models.py] (tables, relationships,
    [to_dict]) and [chyrp-backend/main.py] (the request handlers), followed
    by the properties of likes, follows, post mutation, messaging and search.

    Conventions.
    - A table is the list of its rows in insertion order; an ORM object is
      its row, found through the primary key.
    - A handler is a function from the database (and the authenticated
      caller) to a result and the database after the request.  A handler that
      raises before [db.commit()] leaves the database as it was; one that
      raises after it leaves the committed rows behind and is answered 500.
    - The session is an [AsyncSession] and every relationship of [models.py]
      loads lazily: reading one on an object that [main.py] selected, created
      or refreshed raises [MissingGreenlet].
    - Integers are [Z], text is [string] (bytes), a [DateTime] is the [Z]
      reading of the clock it was taken from; [isoformat()] is not modelled,
      a dictionary carries the reading itself.
    - [datetime.utcnow()] and [uuid.uuid4()] are inputs of the handler that
      calls them. *)

From Stdlib Require Import ZArith List String Ascii Bool Lia.
From Stdlib Require Import Sorting.Sorted Sorting.Permutation.
Import ListNotations.

Local Open Scope Z_scope.

(* ------------------------------------------------------------------ *)
(** ** models.py: the tables *)

Module User.
Record t : Type := mk {
  id : Z;
  email : string;
  username : string;
  full_name : string;
  hashed_password : string;
  bio : string;
  avatar_url : string;
  created_at : Z
}.
End User.

Module Post.
Record t : Type := mk {
  id : Z;
  title : string;
  content : string;
  post_type : string;
  category : string;
  media_url : string;
  author_id : Z;
  created_at : Z;
  updated_at : Z
}.
End Post.

Module Comment.
(** [post_id] is a nullable foreign key: the ORM nulls it when the parent
    post is deleted (the [comments] relationship has no delete cascade). *)
Record t : Type := mk {
  id : Z;
  content : string;
  author_id : Z;
  post_id : option Z;
  created_at : Z
}.
End Comment.

Module Message.
Record t : Type := mk {
  id : Z;
  content : string;
  sender_id : Z;
  receiver_id : Z;
  created_at : Z;
  is_read : bool
}.
End Message.

(** The association tables [post_likes] and [post_saves] hold rows
    [(user_id, post_id)]; [user_followers] holds rows
    [(follower_id, following_id)].  None of them declares a key or a
    uniqueness constraint. *)
Record DB : Type := mkDB {
  users : list User.t;
  posts : list Post.t;
  comments : list Comment.t;
  messages : list Message.t;
  post_likes : list (Z * Z);
  post_saves : list (Z * Z);
  user_followers : list (Z * Z)
}.

(** The database after [init_db()] on a fresh store. *)
Definition empty_db : DB := mkDB [] [] [] [] [] [] [].

(** An autoincremented integer primary key: one more than the largest key in
    the table, 1 for an empty table. *)
Definition next_id (ids : list Z) : Z := 1 + fold_right Z.max 0 ids.

(* ------------------------------------------------------------------ *)
(** ** Python list operations used on relationship collections *)

Definition pair_eqb (a b : Z * Z) : bool :=
  (fst a =? fst b) && (snd a =? snd b).

(** [x in l] on a collection of objects identified by their key. *)
Definition mem (x : Z) (l : list Z) : bool := existsb (Z.eqb x) l.

(** [l.remove(x)] on the rows of an association table: the first row equal to
    [x] goes, the others stay in order. *)
Fixpoint remove_first (x : Z * Z) (l : list (Z * Z)) : list (Z * Z) :=
  match l with
  | [] => []
  | y :: l' => if pair_eqb x y then l' else y :: remove_first x l'
  end.

(* ------------------------------------------------------------------ *)
(** ** Queries: [select(...).filter(...).first()] *)

Definition find_user_by_id (db : DB) (uid : Z) : option User.t :=
  find (fun u => User.id u =? uid) (users db).

Definition find_user_by_username (db : DB) (name : string) : option User.t :=
  find (fun u => String.eqb (User.username u) name) (users db).

Definition find_post (db : DB) (pid : Z) : option Post.t :=
  find (fun p => Post.id p =? pid) (posts db).

(* ------------------------------------------------------------------ *)
(** ** models.py: relationships, as collections of keys

    A relationship with a [secondary] table is read off the rows of that
    table, in table order, and holds the keys of the joined objects: two
    objects of one session are the same object exactly when they have the same
    key, which is what [in], [append] and [remove] look at.  The rows are
    written by the handlers with the keys of stored users and posts, and no
    handler deletes a user. *)

(** [post.liked_by]: the users joined to the post through [post_likes]. *)
Definition liked_by (db : DB) (pid : Z) : list Z :=
  map fst (filter (fun e => snd e =? pid) (post_likes db)).

(** [post.saved_by]. *)
Definition saved_by (db : DB) (pid : Z) : list Z :=
  map fst (filter (fun e => snd e =? pid) (post_saves db)).

(** [user.followers]: [primaryjoin] on [following_id], [secondaryjoin] on
    [follower_id]. *)
Definition followers (db : DB) (uid : Z) : list Z :=
  map fst (filter (fun e => snd e =? uid) (user_followers db)).

(** [user.following], the backref of [followers]. *)
Definition following (db : DB) (uid : Z) : list Z :=
  map snd (filter (fun e => fst e =? uid) (user_followers db)).

(** [post.comments]. *)
Definition post_comments (db : DB) (pid : Z) : list Comment.t :=
  filter (fun c => match Comment.post_id c with
                   | Some q => q =? pid
                   | None => false
                   end) (comments db).

(* ------------------------------------------------------------------ *)
(** ** Reading a relationship through the [AsyncSession]

    [main.py] works on an [AsyncSession], and the relationships of
    [models.py] keep the default loading strategy: the collection is fetched
    when the attribute is first read.  That read is plain attribute access,
    outside any awaited call, so the fetch has no greenlet to run its IO in
    and raises [sqlalchemy.exc.MissingGreenlet].  No handler of [main.py]
    asks for an eager load, and [commit] and [refresh] expire what was
    loaded. *)

(** Where an ORM object comes from.  [Selected]: [main.py] selected it,
    constructed and committed it, or refreshed it.  [Given]: [auth.py] handed
    it over ([get_current_user], [authenticate_user]) and nothing was
    committed since; [auth.py] is not among the sources, and its objects are
    taken with their collections loaded. *)
Inductive Origin : Type := Selected | Given.

(** A read of a relationship attribute whose loaded value would be [value]:
    [None] stands for the raised [MissingGreenlet]. *)
Definition relationship {A : Type} (origin : Origin) (value : A) : option A :=
  match origin with
  | Selected => None
  | Given => Some value
  end.

(* ------------------------------------------------------------------ *)
(** ** models.py: [to_dict] *)

Record UserDict : Type := mkUserDict {
  ud_id : Z;
  ud_email : string;
  ud_username : string;
  ud_full_name : string;
  ud_bio : string;
  ud_avatar_url : string;
  ud_created_at : Z;
  ud_followers_count : nat;
  ud_following_count : nat
}.

Record PostDict : Type := mkPostDict {
  pd_id : Z;
  pd_title : string;
  pd_content : string;
  pd_post_type : string;
  pd_category : string;
  pd_media_url : string;
  pd_author : UserDict;
  pd_created_at : Z;
  pd_updated_at : Z;
  pd_likes_count : nat;
  pd_comments_count : nat;
  pd_is_liked : bool;
  pd_is_saved : bool
}.

Record CommentDict : Type := mkCommentDict {
  cd_id : Z;
  cd_content : string;
  cd_author : UserDict;
  cd_post_id : option Z;
  cd_created_at : Z
}.

Record MessageDict : Type := mkMessageDict {
  md_id : Z;
  md_content : string;
  md_sender : UserDict;
  md_receiver : UserDict;
  md_created_at : Z;
  md_is_read : bool
}.

(** Sequencing of steps that may raise: [None] is the raised exception. *)
Notation "x <- e ;; k" :=
  (match e with
   | Some x => k
   | None => None
   end) (at level 61, e at next level, right associativity).

(** [User.to_dict] on an object of the given origin: the dictionary is built
    after [self.followers] and [self.following] have been read. *)
Definition user_to_dict (db : DB) (origin : Origin) (u : User.t)
    : option UserDict :=
  fs <- relationship origin (followers db (User.id u)) ;;
  gs <- relationship origin (following db (User.id u)) ;;
  Some (mkUserDict (User.id u) (User.email u) (User.username u)
          (User.full_name u) (User.bio u) (User.avatar_url u)
          (User.created_at u) (List.length fs) (List.length gs)).

(** [Post.to_dict(user_id)].  Every post object is one that [main.py]
    selected or created, and so is the author it loads.  The entries are
    evaluated in the order of the dictionary: [self.author] first (it follows
    the foreign key: with no user row behind it the attribute is [None] and
    [.to_dict()] raises), then [self.liked_by] and [self.comments], and, for a
    truthy [user_id], [self.liked_by] and [self.saved_by] again.  The handlers
    always pass the caller's id, and [if user_id:] is Python truthiness: the
    flags stay [False] for id 0. *)
Definition post_to_dict (db : DB) (user_id : Z) (p : Post.t) : option PostDict :=
  author <- relationship Selected (find_user_by_id db (Post.author_id p)) ;;
  a <- author ;;
  author_dict <- user_to_dict db Selected a ;;
  likers <- relationship Selected (liked_by db (Post.id p)) ;;
  cs <- relationship Selected (post_comments db (Post.id p)) ;;
  savers <- (if user_id =? 0 then Some []
             else relationship Selected (saved_by db (Post.id p))) ;;
  let truthy := negb (user_id =? 0) in
  Some (mkPostDict (Post.id p) (Post.title p) (Post.content p)
          (Post.post_type p) (Post.category p) (Post.media_url p)
          author_dict (Post.created_at p) (Post.updated_at p)
          (List.length likers) (List.length cs)
          (truthy && mem user_id likers)
          (truthy && mem user_id savers)).

(** [Comment.to_dict]: [self.author] is read on a comment that [main.py]
    selected or created. *)
Definition comment_to_dict (db : DB) (c : Comment.t) : option CommentDict :=
  author <- relationship Selected (find_user_by_id db (Comment.author_id c)) ;;
  a <- author ;;
  author_dict <- user_to_dict db Selected a ;;
  Some (mkCommentDict (Comment.id c) (Comment.content c) author_dict
          (Comment.post_id c) (Comment.created_at c)).

(** [Message.to_dict]: [self.sender], then [self.receiver], on a message that
    [main.py] selected or created. *)
Definition message_to_dict (db : DB) (m : Message.t) : option MessageDict :=
  sender <- relationship Selected (find_user_by_id db (Message.sender_id m)) ;;
  s <- sender ;;
  sender_dict <- user_to_dict db Selected s ;;
  receiver <- relationship Selected
                (find_user_by_id db (Message.receiver_id m)) ;;
  r <- receiver ;;
  receiver_dict <- user_to_dict db Selected r ;;
  Some (mkMessageDict (Message.id m) (Message.content m)
          sender_dict receiver_dict
          (Message.created_at m) (Message.is_read m)).

(** A list comprehension [[f(x) for x in l]] whose body may raise. *)
Fixpoint traverse {A B : Type} (f : A -> option B) (l : list A) : option (list B) :=
  match l with
  | [] => Some []
  | x :: l' =>
      match f x with
      | None => None
      | Some y =>
          match traverse f l' with
          | None => None
          | Some ys => Some (y :: ys)
          end
      end
  end.

(* ------------------------------------------------------------------ *)
(** ** Results of a handler *)

(** A handler returns its value or raises [HTTPException(status_code, detail)]. *)
Inductive Result (A : Type) : Type :=
| Ok (a : A)
| HTTPException (status_code : Z) (detail : string).

Arguments Ok {A} a.
Arguments HTTPException {A} status_code detail.

(** An exception that is not an [HTTPException] reaches the framework, which
    answers 500. *)
Definition internal_error {A : Type} : Result A :=
  HTTPException 500 "Internal Server Error".

Definition of_option {A : Type} (o : option A) : Result A :=
  match o with
  | Some a => Ok a
  | None => internal_error
  end.

(* ------------------------------------------------------------------ *)
(** ** Text: truthiness, [split], [lower], [LIKE] *)

(** [if field: obj.attr = field] for an [Optional[str]] form field: the
    assignment runs for a supplied, non-empty string only. *)
Definition assign_if_truthy (field : option string) (stored : string) : string :=
  match field with
  | Some s => if String.eqb s "" then stored else s
  | None => stored
  end.

Fixpoint has_dot (s : string) : bool :=
  match s with
  | EmptyString => false
  | String c s' => Ascii.eqb c "." || has_dot s'
  end.

(** [s.split(".")[-1]]: what follows the last dot, all of [s] without one. *)
Fixpoint split_dot_last (s : string) : string :=
  match s with
  | EmptyString => EmptyString
  | String c s' =>
      if has_dot s' then split_dot_last s'
      else if Ascii.eqb c "." then s' else s
  end.

(** An uploaded file: its name, and whether the file system takes its bytes
    under a path into one of the upload directories (room on the disk, a name
    of a length it allows).  The file system is outside this model; its answer
    comes with the upload. *)
Record UploadFile : Type := mkUploadFile {
  filename : string;
  accepted : bool
}.

Fixpoint has_char (c : ascii) (s : string) : bool :=
  match s with
  | EmptyString => false
  | String d s' => Ascii.eqb c d || has_char c s'
  end.

(** [with open(file_path, "wb") as buffer: shutil.copyfileobj(file, buffer)]
    for [file_path = f"uploads/{bucket}/{uuid}.{ext}"], [true] when the bytes
    are written.  The two upload directories exist and a uuid holds no slash:
    with a slash in the extension the path leads into a directory that is not
    there and [open] raises [FileNotFoundError]; with a NUL byte it raises
    [ValueError]. *)
Definition write_upload (f : UploadFile) : bool :=
  let file_extension := split_dot_last (filename f) in
  negb (has_char "/" file_extension)
  && negb (has_char "000" file_extension)
  && accepted f.

(** The reference stored for an upload: [f"/uploads/{bucket}/{uuid}.{ext}"]. *)
Definition upload_url (bucket : string) (uuid : string) (f : UploadFile) : string :=
  ("/uploads/" ++ bucket ++ "/" ++ uuid ++ "." ++ split_dot_last (filename f))%string.

(** SQL [lower()] on bytes: the letters A-Z move to a-z. *)
Definition lower_ascii (c : ascii) : ascii :=
  let n := nat_of_ascii c in
  if (Nat.leb 65 n && Nat.leb n 90)%bool then ascii_of_nat (n + 32) else c.

Fixpoint lower (s : string) : string :=
  match s with
  | EmptyString => EmptyString
  | String c s' => String (lower_ascii c) (lower s')
  end.

(** SQL [s LIKE pat] with no [ESCAPE] clause: [%] stands for any run of
    characters, [_] for any one character, every other character for itself. *)
Fixpoint like (pat : string) : string -> bool :=
  match pat with
  | EmptyString => fun s => match s with EmptyString => true | _ => false end
  | String c pat' =>
      if Ascii.eqb c "%" then
        fix skip (s : string) : bool :=
          like pat' s ||
          match s with
          | EmptyString => false
          | String _ s' => skip s'
          end
      else if Ascii.eqb c "_" then
        fun s => match s with
                 | EmptyString => false
                 | String _ s' => like pat' s'
                 end
      else
        fun s => match s with
                 | EmptyString => false
                 | String d s' => Ascii.eqb c d && like pat' s'
                 end
  end.

(** [column.ilike(pat)]: [lower(column) LIKE lower(pat)]. *)
Definition ilike (column pat : string) : bool := like (lower pat) (lower column).

(** The pattern [f"%{q}%"]. *)
Definition contains_pattern (q : string) : string := ("%" ++ q ++ "%")%string.

(* ------------------------------------------------------------------ *)
(** ** [order_by], [offset], [limit] *)

Section Sort.
Context {A : Type}.
Variable le : A -> A -> bool.

Fixpoint insert_by (x : A) (l : list A) : list A :=
  match l with
  | [] => [x]
  | y :: l' => if le x y then x :: l else y :: insert_by x l'
  end.

(** A stable sort: rows that compare equal keep their table order. *)
Definition sort_by (l : list A) : list A := fold_right insert_by [] l.
End Sort.

(** [order_by(key.asc())] and [order_by(key.desc())]; rows with equal keys
    come in table order (the engine leaves their order open). *)
Definition order_by_asc {A : Type} (key : A -> Z) : list A -> list A :=
  sort_by (fun a b => key a <=? key b).

Definition order_by_desc {A : Type} (key : A -> Z) : list A -> list A :=
  sort_by (fun a b => key b <=? key a).

(** [.offset(skip).limit(limit)] on integers, read as SQLite does: a negative
    offset skips nothing and a negative limit keeps everything. *)
Definition paginate {A : Type} (skip limit : Z) (l : list A) : list A :=
  let rest := skipn (Z.to_nat skip) l in
  if limit <? 0 then rest else firstn (Z.to_nat limit) rest.

(* ------------------------------------------------------------------ *)
(** ** Row updates *)

Definition with_users (db : DB) (us : list User.t) : DB :=
  mkDB us (posts db) (comments db) (messages db)
       (post_likes db) (post_saves db) (user_followers db).

Definition with_posts (db : DB) (ps : list Post.t) : DB :=
  mkDB (users db) ps (comments db) (messages db)
       (post_likes db) (post_saves db) (user_followers db).

Definition with_comments (db : DB) (cs : list Comment.t) : DB :=
  mkDB (users db) (posts db) cs (messages db)
       (post_likes db) (post_saves db) (user_followers db).

Definition with_messages (db : DB) (ms : list Message.t) : DB :=
  mkDB (users db) (posts db) (comments db) ms
       (post_likes db) (post_saves db) (user_followers db).

Definition with_post_likes (db : DB) (es : list (Z * Z)) : DB :=
  mkDB (users db) (posts db) (comments db) (messages db)
       es (post_saves db) (user_followers db).

Definition with_post_saves (db : DB) (es : list (Z * Z)) : DB :=
  mkDB (users db) (posts db) (comments db) (messages db)
       (post_likes db) es (user_followers db).

Definition with_user_followers (db : DB) (es : list (Z * Z)) : DB :=
  mkDB (users db) (posts db) (comments db) (messages db)
       (post_likes db) (post_saves db) es.

(** Attribute writes on the object whose primary key is [key]. *)
Definition update_user (key : Z) (f : User.t -> User.t) (db : DB) : DB :=
  with_users db
    (map (fun u => if User.id u =? key then f u else u) (users db)).

Definition update_post_row (key : Z) (f : Post.t -> Post.t) (db : DB) : DB :=
  with_posts db
    (map (fun p => if Post.id p =? key then f p else p) (posts db)).

(* ------------------------------------------------------------------ *)
(** ** main.py: authentication and user endpoints *)

Record TokenResponse : Type := mkTokenResponse {
  access_token : string;
  token_type : string;
  token_user : UserDict
}.

(** Password hashing, credential checking and token issuing live in
    [auth.py], outside the model; the handlers take them as functions. *)
Record Auth : Type := mkAuth {
  get_password_hash : string -> string;
  create_access_token : string -> Z -> string;
  authenticate_user : DB -> string -> string -> option User.t
}.

(** [POST /token]. *)
Definition login_for_access_token (auth : Auth) (db : DB)
    (username password : string) : Result TokenResponse * DB :=
  match authenticate_user auth db username password with
  | None => (HTTPException 401 "Incorrect username or password", db)
  | Some user =>
      (of_option
         (option_map
            (mkTokenResponse (create_access_token auth (User.username user) 30)
               "bearer")
            (user_to_dict db Given user)), db)
  end.

(** [POST /register].  The row is committed and refreshed before the answer
    is built from [new_user.to_dict()]. *)
Definition register_user (auth : Auth) (db : DB)
    (email username full_name password : string) (now : Z)
    : Result TokenResponse * DB :=
  match find (fun u => String.eqb (User.email u) email
                       || String.eqb (User.username u) username) (users db) with
  | Some _ =>
      (HTTPException 400 "User with this email or username already exists", db)
  | None =>
      let new_user :=
        User.mk (next_id (map User.id (users db))) email username full_name
                (get_password_hash auth password) "" "" now in
      let db' := with_users db (users db ++ [new_user]) in
      (of_option
         (option_map
            (mkTokenResponse
               (create_access_token auth (User.username new_user) 30)
               "bearer")
            (user_to_dict db' Selected new_user)), db')
  end.

(** [GET /users/me]. *)
Definition read_users_me (db : DB) (current_user : User.t)
    : Result UserDict * DB :=
  (of_option (user_to_dict db Given current_user), db).

(** Whether the file of an optional upload gets written; there is nothing to
    write without an upload. *)
Definition upload_written (upload : option UploadFile) : bool :=
  match upload with
  | Some f => write_upload f
  | None => true
  end.

(** [PUT /users/me].  The avatar file is written before the commit, and a
    failure there ends the request with nothing stored.  After the commit
    [db.refresh(current_user)] reads the caller's row back (it raises when the
    row is not there) and leaves the relationships unloaded for
    [current_user.to_dict()]. *)
Definition update_user_profile (db : DB) (current_user : User.t)
    (full_name bio : option string) (avatar : option UploadFile)
    (uuid : string) : Result UserDict * DB :=
  let set_avatar (old : string) :=
    match avatar with
    | Some f => upload_url "images" uuid f
    | None => old
    end in
  let write (u : User.t) :=
    User.mk (User.id u) (User.email u) (User.username u)
            (assign_if_truthy full_name (User.full_name u))
            (User.hashed_password u)
            (assign_if_truthy bio (User.bio u))
            (set_avatar (User.avatar_url u))
            (User.created_at u) in
  if negb (upload_written avatar) then (internal_error, db)
  else
    let db' := update_user (User.id current_user) write db in
    (of_option (refreshed <- find_user_by_id db' (User.id current_user) ;;
                user_to_dict db' Selected refreshed), db').

(** [GET /users/{username}]. *)
Definition get_user_profile (db : DB) (current_user : User.t)
    (username : string) : Result UserDict * DB :=
  match find_user_by_username db username with
  | None => (HTTPException 404 "User not found", db)
  | Some user => (of_option (user_to_dict db Selected user), db)
  end.

(* ------------------------------------------------------------------ *)
(** ** main.py: follow and unfollow *)

(** [POST /users/{username}/follow]. *)
Definition follow_user (db : DB) (current_user : User.t) (username : string)
    : Result string * DB :=
  if String.eqb username (User.username current_user) then
    (HTTPException 400 "You cannot follow yourself", db)
  else
    match find_user_by_username db username with
    | None => (HTTPException 404 "User not found", db)
    | Some user_to_follow =>
        let db' :=
          if negb (mem (User.id user_to_follow)
                       (following db (User.id current_user)))
          then with_user_followers db
                 (user_followers db
                  ++ [(User.id current_user, User.id user_to_follow)])
          else db in
        (Ok ("Now following " ++ username)%string, db')
    end.

(** [DELETE /users/{username}/follow]. *)
Definition unfollow_user (db : DB) (current_user : User.t) (username : string)
    : Result string * DB :=
  match find_user_by_username db username with
  | None => (HTTPException 404 "User not found", db)
  | Some user_to_unfollow =>
      let db' :=
        if mem (User.id user_to_unfollow) (following db (User.id current_user))
        then with_user_followers db
               (remove_first (User.id current_user, User.id user_to_unfollow)
                             (user_followers db))
        else db in
      (Ok ("Unfollowed " ++ username)%string, db')
  end.

(* ------------------------------------------------------------------ *)
(** ** main.py: post endpoints *)

(** [GET /posts]. *)
Definition get_posts (db : DB) (current_user : User.t) (skip limit : Z)
    (category filter_type : option string) : Result (list PostDict) * DB :=
  let query := order_by_desc Post.created_at (posts db) in
  let query :=
    match category with
    | Some c =>
        if negb (String.eqb c "") && negb (String.eqb c "all")
        then filter (fun p => String.eqb (Post.category p) c) query
        else query
    | None => query
    end in
  let query :=
    match filter_type with
    | Some t =>
        if String.eqb t "saved" then
          filter (fun p => mem (User.id current_user) (saved_by db (Post.id p)))
                 query
        else if String.eqb t "liked" then
          filter (fun p => mem (User.id current_user) (liked_by db (Post.id p)))
                 query
        else query
    | None => query
    end in
  let posts := paginate skip limit query in
  (of_option (traverse (post_to_dict db (User.id current_user)) posts), db).

(** [POST /posts].  The media file is written before the row is added, and
    a failure there ends the request with nothing stored.  A [media_url] left
    [None] is not sent with the INSERT, so the column default [""] is stored;
    [created_at] and [updated_at] each take their own reading of the clock, in
    column order. *)
Definition create_post (db : DB) (current_user : User.t)
    (title content post_type category : string) (media : option UploadFile)
    (uuid : string) (now_created now_updated : Z) : Result PostDict * DB :=
  let media_url :=
    match media with
    | Some f =>
        if String.eqb post_type "video" then upload_url "videos" uuid f
        else upload_url "images" uuid f
    | None => ""%string
    end in
  let new_post :=
    Post.mk (next_id (map Post.id (posts db))) title content post_type category
            media_url (User.id current_user) now_created now_updated in
  if negb (upload_written media) then (internal_error, db)
  else
    let db' := with_posts db (posts db ++ [new_post]) in
    (of_option (post_to_dict db' (User.id current_user) new_post), db').

(** [GET /posts/{post_id}]. *)
Definition get_post (db : DB) (current_user : User.t) (post_id : Z)
    : Result PostDict * DB :=
  match find_post db post_id with
  | None => (HTTPException 404 "Post not found", db)
  | Some post => (of_option (post_to_dict db (User.id current_user) post), db)
  end.

(** [PUT /posts/{post_id}].  The attribute writes stay in the session until
    the commit: when the media file cannot be written the request ends before
    it and the row is as it was. *)
Definition update_post (db : DB) (current_user : User.t) (post_id : Z)
    (title content category : option string) (media : option UploadFile)
    (uuid : string) (now : Z) : Result PostDict * DB :=
  match find_post db post_id with
  | None => (HTTPException 404 "Post not found", db)
  | Some post =>
      if negb (Post.author_id post =? User.id current_user) then
        (HTTPException 403 "Not authorized to update this post", db)
      else
        let write (p : Post.t) :=
          Post.mk (Post.id p)
                  (assign_if_truthy title (Post.title p))
                  (assign_if_truthy content (Post.content p))
                  (Post.post_type p)
                  (assign_if_truthy category (Post.category p))
                  (match media with
                   | Some f =>
                       if String.eqb (Post.post_type p) "video"
                       then upload_url "videos" uuid f
                       else upload_url "images" uuid f
                   | None => Post.media_url p
                   end)
                  (Post.author_id p) (Post.created_at p) now in
        if negb (upload_written media) then (internal_error, db)
        else
          let db' := update_post_row (Post.id post) write db in
          (of_option (post_to_dict db' (User.id current_user) (write post)),
           db')
  end.

(** [session.delete(post)] followed by the commit.  The unit of work deletes
    the post's row, deletes the rows of every [secondary] table that point at
    it ([post_likes], [post_saves]) and, [comments] having no delete cascade,
    sets [post_id] to NULL on the post's comments. *)
Definition session_delete_post (db : DB) (pid : Z) : DB :=
  mkDB (users db)
       (filter (fun p => negb (Post.id p =? pid)) (posts db))
       (map (fun c =>
               match Comment.post_id c with
               | Some q =>
                   if q =? pid
                   then Comment.mk (Comment.id c) (Comment.content c)
                                   (Comment.author_id c) None
                                   (Comment.created_at c)
                   else c
               | None => c
               end) (comments db))
       (messages db)
       (filter (fun e => negb (snd e =? pid)) (post_likes db))
       (filter (fun e => negb (snd e =? pid)) (post_saves db))
       (user_followers db).

(** [DELETE /posts/{post_id}]. *)
Definition delete_post (db : DB) (current_user : User.t) (post_id : Z)
    : Result string * DB :=
  match find_post db post_id with
  | None => (HTTPException 404 "Post not found", db)
  | Some post =>
      if negb (Post.author_id post =? User.id current_user) then
        (HTTPException 403 "Not authorized to delete this post", db)
      else
        (Ok "Post deleted successfully"%string,
         session_delete_post db (Post.id post))
  end.

(** [GET /users/{username}/posts]. *)
Definition get_user_posts (db : DB) (current_user : User.t) (username : string)
    (skip limit : Z) : Result (list PostDict) * DB :=
  match find_user_by_username db username with
  | None => (HTTPException 404 "User not found", db)
  | Some user =>
      let query :=
        order_by_desc Post.created_at
          (filter (fun p => Post.author_id p =? User.id user) (posts db)) in
      let posts := paginate skip limit query in
      (of_option (traverse (post_to_dict db (User.id current_user)) posts), db)
  end.

(* ------------------------------------------------------------------ *)
(** ** main.py: like and save endpoints *)

Record LikeResponse : Type := mkLikeResponse {
  like_message : string;
  likes_count : nat
}.

(** [POST /posts/{post_id}/like].  [post] is the selected row:
    [current_user not in post.liked_by] reads its relationship before
    anything is written, and [len(post.liked_by)] reads it again after the
    commit. *)
Definition like_post (db : DB) (current_user : User.t) (post_id : Z)
    : Result LikeResponse * DB :=
  match find_post db post_id with
  | None => (HTTPException 404 "Post not found", db)
  | Some post =>
      match relationship Selected (liked_by db (Post.id post)) with
      | None => (internal_error, db)
      | Some likers =>
          let db' :=
            if negb (mem (User.id current_user) likers)
            then with_post_likes db
                   (post_likes db ++ [(User.id current_user, Post.id post)])
            else db in
          (of_option
             (option_map (fun likers' =>
                            mkLikeResponse "Post liked" (List.length likers'))
                (relationship Selected (liked_by db' (Post.id post)))), db')
      end
  end.

(** [DELETE /posts/{post_id}/like]. *)
Definition unlike_post (db : DB) (current_user : User.t) (post_id : Z)
    : Result LikeResponse * DB :=
  match find_post db post_id with
  | None => (HTTPException 404 "Post not found", db)
  | Some post =>
      match relationship Selected (liked_by db (Post.id post)) with
      | None => (internal_error, db)
      | Some likers =>
          let db' :=
            if mem (User.id current_user) likers
            then with_post_likes db
                   (remove_first (User.id current_user, Post.id post)
                                 (post_likes db))
            else db in
          (of_option
             (option_map (fun likers' =>
                            mkLikeResponse "Post unliked" (List.length likers'))
                (relationship Selected (liked_by db' (Post.id post)))), db')
      end
  end.

(** [POST /posts/{post_id}/save]. *)
Definition save_post (db : DB) (current_user : User.t) (post_id : Z)
    : Result string * DB :=
  match find_post db post_id with
  | None => (HTTPException 404 "Post not found", db)
  | Some post =>
      match relationship Selected (saved_by db (Post.id post)) with
      | None => (internal_error, db)
      | Some savers =>
          let db' :=
            if negb (mem (User.id current_user) savers)
            then with_post_saves db
                   (post_saves db ++ [(User.id current_user, Post.id post)])
            else db in
          (Ok "Post saved"%string, db')
      end
  end.

(** [DELETE /posts/{post_id}/save]. *)
Definition unsave_post (db : DB) (current_user : User.t) (post_id : Z)
    : Result string * DB :=
  match find_post db post_id with
  | None => (HTTPException 404 "Post not found", db)
  | Some post =>
      match relationship Selected (saved_by db (Post.id post)) with
      | None => (internal_error, db)
      | Some savers =>
          let db' :=
            if mem (User.id current_user) savers
            then with_post_saves db
                   (remove_first (User.id current_user, Post.id post)
                                 (post_saves db))
            else db in
          (Ok "Post unsaved"%string, db')
      end
  end.

(* ------------------------------------------------------------------ *)
(** ** main.py: comment endpoints *)

(** [GET /posts/{post_id}/comments]: the comments are read off
    [post.comments] of the selected post. *)
Definition get_post_comments (db : DB) (current_user : User.t) (post_id : Z)
    : Result (list CommentDict) * DB :=
  match find_post db post_id with
  | None => (HTTPException 404 "Post not found", db)
  | Some post =>
      (of_option (cs <- relationship Selected (post_comments db (Post.id post)) ;;
                  traverse (comment_to_dict db) cs), db)
  end.

(** [POST /posts/{post_id}/comments]. *)
Definition create_comment (db : DB) (current_user : User.t) (post_id : Z)
    (content : string) (now : Z) : Result CommentDict * DB :=
  match find_post db post_id with
  | None => (HTTPException 404 "Post not found", db)
  | Some _ =>
      let new_comment :=
        Comment.mk (next_id (map Comment.id (comments db))) content
                   (User.id current_user) (Some post_id) now in
      let db' := with_comments db (comments db ++ [new_comment]) in
      (of_option (comment_to_dict db' new_comment), db')
  end.

(* ------------------------------------------------------------------ *)
(** ** main.py: message endpoints *)

(** [GET /messages]. *)
Definition get_messages (db : DB) (current_user : User.t)
    : Result (list MessageDict) * DB :=
  let messages :=
    order_by_desc Message.created_at
      (filter (fun m => (Message.sender_id m =? User.id current_user)
                        || (Message.receiver_id m =? User.id current_user))
              (messages db)) in
  (of_option (traverse (message_to_dict db) messages), db).

(** The filter of [get_conversation]: the messages between the caller and
    [user_id], in either direction. *)
Definition in_conversation (me user_id : Z) (m : Message.t) : bool :=
  ((Message.sender_id m =? me) && (Message.receiver_id m =? user_id))
  || ((Message.sender_id m =? user_id) && (Message.receiver_id m =? me)).

(** The loop body of [get_conversation] on one selected message. *)
Definition mark_read (me : Z) (m : Message.t) : Message.t :=
  if (Message.receiver_id m =? me) && negb (Message.is_read m)
  then Message.mk (Message.id m) (Message.content m) (Message.sender_id m)
                  (Message.receiver_id m) (Message.created_at m) true
  else m.

(** [GET /messages/{user_id}].  The selected messages are the session's
    objects: the loop writes on them, the commit stores the writes, and the
    dictionaries are built from the objects after the loop. *)
Definition get_conversation (db : DB) (current_user : User.t) (user_id : Z)
    : Result (list MessageDict) * DB :=
  let me := User.id current_user in
  let db' :=
    with_messages db
      (map (fun m => if in_conversation me user_id m then mark_read me m else m)
           (messages db)) in
  let messages :=
    map (mark_read me)
        (order_by_asc Message.created_at
           (filter (in_conversation me user_id) (messages db))) in
  (of_option (traverse (message_to_dict db') messages), db').

(** [POST /messages/{user_id}]. *)
Definition send_message (db : DB) (current_user : User.t) (user_id : Z)
    (content : string) (now : Z) : Result MessageDict * DB :=
  match find_user_by_id db user_id with
  | None => (HTTPException 404 "User not found", db)
  | Some _ =>
      let new_message :=
        Message.mk (next_id (map Message.id (messages db))) content
                   (User.id current_user) user_id now false in
      let db' := with_messages db (messages db ++ [new_message]) in
      (of_option (message_to_dict db' new_message), db')
  end.

(* ------------------------------------------------------------------ *)
(** ** main.py: search *)

Inductive SearchResult : Type :=
| FoundUsers (us : list UserDict)
| FoundPosts (ps : list PostDict).

(** The rows selected by the post branch of [search], before [to_dict]. *)
Definition search_posts_rows (db : DB) (q : string) (skip limit : Z)
    : list Post.t :=
  paginate skip limit
    (order_by_desc Post.created_at
       (filter (fun p => ilike (Post.title p) (contains_pattern q)
                         || ilike (Post.content p) (contains_pattern q))
               (posts db))).

(** [GET /search]. *)
Definition search (db : DB) (current_user : User.t) (q search_type : string)
    (skip limit : Z) : Result SearchResult * DB :=
  if String.eqb search_type "users" then
    let users :=
      paginate skip limit
        (filter (fun u => ilike (User.username u) (contains_pattern q)
                          || ilike (User.full_name u) (contains_pattern q))
                (users db)) in
    (of_option (option_map FoundUsers
                  (traverse (user_to_dict db Selected) users)), db)
  else
    match traverse (post_to_dict db (User.id current_user))
                   (search_posts_rows db q skip limit) with
    | Some ps => (Ok (FoundPosts ps), db)
    | None => (internal_error, db)
    end.

(* ------------------------------------------------------------------ *)
(** ** The server: requests against one database *)

(** Modelled from the spec: [get_current_user] of [auth.py], which is not
    part of the sources at hand.  The auth collaborator turns the bearer
    credential into "a verified User identity or fails Unauthenticated"; the
    credential's subject is the username ([data={"sub": user.username}] in
    [main.py]), so the caller is the user row with that username. *)
Definition get_current_user (db : DB) (subject : string) : Result User.t :=
  match find_user_by_username db subject with
  | Some u => Ok u
  | None => HTTPException 401 "Could not validate credentials"
  end.

(** The routes that take no credential. *)
Inductive PublicRequest : Type :=
| Login (username password : string)
| Register (email username full_name password : string).

(** The routes that depend on [get_current_user]. *)
Inductive Request : Type :=
| ReadUsersMe
| UpdateUserProfile (full_name bio : option string) (avatar : option UploadFile)
| GetUserProfile (username : string)
| FollowUser (username : string)
| UnfollowUser (username : string)
| GetPosts (skip limit : Z) (category filter_type : option string)
| CreatePost (title content post_type category : string)
             (media : option UploadFile)
| GetPost (post_id : Z)
| UpdatePost (post_id : Z) (title content category : option string)
             (media : option UploadFile)
| DeletePost (post_id : Z)
| GetUserPosts (username : string) (skip limit : Z)
| LikePost (post_id : Z)
| UnlikePost (post_id : Z)
| SavePost (post_id : Z)
| UnsavePost (post_id : Z)
| GetPostComments (post_id : Z)
| CreateComment (post_id : Z) (content : string)
| GetMessages
| GetConversation (user_id : Z)
| SendMessage (user_id : Z) (content : string)
| Search (q search_type : string) (skip limit : Z).

(** A request as it arrives; [subject] is the subject of the bearer token. *)
Inductive Event : Type :=
| Public (req : PublicRequest)
| Authenticated (subject : string) (req : Request).

(** What a request takes from outside the database: the auth functions, the
    readings of [datetime.utcnow()] in the order they are taken, and the
    draws of [uuid.uuid4()]. *)
Record Env : Type := mkEnv {
  env_auth : Auth;
  utcnow : nat -> Z;
  uuid4 : nat -> string
}.

(** The database together with the number of requests served.  Request
    number [n] has the clock readings [2n] and [2n+1] and the draw [n]. *)
Record World : Type := mkWorld {
  world_db : DB;
  served : nat
}.

Definition init_world : World := mkWorld empty_db 0.

Definition status {A : Type} (r : Result A) : Z :=
  match r with
  | Ok _ => 200
  | HTTPException code _ => code
  end.

Definition answer {A : Type} (r : Result A * DB) : Z * DB :=
  (status (fst r), snd r).

Definition dispatch_public (env : Env) (n : nat) (db : DB)
    (req : PublicRequest) : Z * DB :=
  match req with
  | Login u p => answer (login_for_access_token (env_auth env) db u p)
  | Register e u f p =>
      answer (register_user (env_auth env) db e u f p (utcnow env (2 * n)))
  end.

(** One authenticated request: status code and database afterwards. *)
Definition dispatch (env : Env) (n : nat) (db : DB) (current_user : User.t)
    (req : Request) : Z * DB :=
  let now := utcnow env (2 * n) in
  let now' := utcnow env (2 * n + 1) in
  let uuid := uuid4 env n in
  match req with
  | ReadUsersMe => answer (read_users_me db current_user)
  | UpdateUserProfile f b a =>
      answer (update_user_profile db current_user f b a uuid)
  | GetUserProfile u => answer (get_user_profile db current_user u)
  | FollowUser u => answer (follow_user db current_user u)
  | UnfollowUser u => answer (unfollow_user db current_user u)
  | GetPosts s l c f => answer (get_posts db current_user s l c f)
  | CreatePost t c pt cat m =>
      answer (create_post db current_user t c pt cat m uuid now now')
  | GetPost i => answer (get_post db current_user i)
  | UpdatePost i t c cat m =>
      answer (update_post db current_user i t c cat m uuid now)
  | DeletePost i => answer (delete_post db current_user i)
  | GetUserPosts u s l => answer (get_user_posts db current_user u s l)
  | LikePost i => answer (like_post db current_user i)
  | UnlikePost i => answer (unlike_post db current_user i)
  | SavePost i => answer (save_post db current_user i)
  | UnsavePost i => answer (unsave_post db current_user i)
  | GetPostComments i => answer (get_post_comments db current_user i)
  | CreateComment i c => answer (create_comment db current_user i c now)
  | GetMessages => answer (get_messages db current_user)
  | GetConversation u => answer (get_conversation db current_user u)
  | SendMessage u c => answer (send_message db current_user u c now)
  | Search q t s l => answer (search db current_user q t s l)
  end.

Definition handle (env : Env) (n : nat) (db : DB) (ev : Event) : Z * DB :=
  match ev with
  | Public req => dispatch_public env n db req
  | Authenticated subject req =>
      match get_current_user db subject with
      | Ok current_user => dispatch env n db current_user req
      | HTTPException code _ => (code, db)
      end
  end.

Definition step (env : Env) (w : World) (ev : Event) : World :=
  mkWorld (snd (handle env (served w) (world_db w) ev)) (S (served w)).

(** The requests of [evs] served one after the other. *)
Definition run (env : Env) (evs : list Event) (w : World) : World :=
  fold_left (step env) evs w.

(** The databases the server can be in. *)
Definition reachable (db : DB) : Prop :=
  exists env evs, db = world_db (run env evs init_world).

(* ------------------------------------------------------------------ *)
(** ** Vocabulary of the properties *)

(** The number of rows equal to [e]. *)
Definition count_row (e : Z * Z) (l : list (Z * Z)) : nat :=
  List.length (filter (pair_eqb e) l).

(** The scenario of the specification: [alice] and [bob] register, then
    [alice] creates a post titled "Hello" in category [sports].  The
    environment hashes and signs with the identity, the clock reads its own
    index and every upload draws the same uuid. *)
Definition scenario_env : Env :=
  mkEnv (mkAuth (fun password => password) (fun subject _ => subject)
                (fun _ _ _ => None))
        Z.of_nat (fun _ => "0000"%string).

(** The three requests of the scenario. *)
Definition scenario_events : list Event :=
  [ Public (Register "alice@example.org" "alice" "Alice" "secret-a");
    Public (Register "bob@example.org" "bob" "Bob" "secret-b");
    Authenticated "alice" (CreatePost "Hello" "First post" "blog" "sports" None) ].

(** The database they leave. *)
Definition scenario_db : DB :=
  world_db (run scenario_env scenario_events init_world).

(** The two user rows of [scenario_db], as [get_current_user] hands them to
    the handlers. *)
Definition alice : User.t :=
  User.mk 1 "alice@example.org" "alice" "Alice" "secret-a" "" "" 0.

Definition bob : User.t :=
  User.mk 2 "bob@example.org" "bob" "Bob" "secret-b" "" "" 2.

(** [scenario_db] with one row in the like table and one in the save table:
    [bob] likes and has saved the post of [alice]. *)
Definition scenario_db_liked_saved : DB :=
  with_post_saves (with_post_likes scenario_db [(2, 1)]) [(2, 1)].

(** How a request may change the text columns of a row: none goes from
    something to the empty string. *)
Definition post_text_kept (p p' : Post.t) : Prop :=
  Post.id p' = Post.id p /\
  (Post.title p <> ""%string -> Post.title p' <> ""%string) /\
  (Post.content p <> ""%string -> Post.content p' <> ""%string) /\
  (Post.category p <> ""%string -> Post.category p' <> ""%string) /\
  (Post.media_url p <> ""%string -> Post.media_url p' <> ""%string) /\
  Post.post_type p' = Post.post_type p.

(** The same for the text columns of a user. *)
Definition user_text_kept (u u' : User.t) : Prop :=
  User.id u' = User.id u /\
  (User.full_name u <> ""%string -> User.full_name u' <> ""%string) /\
  (User.bio u <> ""%string -> User.bio u' <> ""%string) /\
  (User.avatar_url u <> ""%string -> User.avatar_url u' <> ""%string).

(** A form field that carries no text: not sent, or sent as the empty
    string. *)
Definition no_text (field : option string) : Prop :=
  field = None \/ field = Some ""%string.

(** A message between [a] and [b], in either direction. *)
Definition between (a b : Z) (m : Message.t) : Prop :=
  (Message.sender_id m = a /\ Message.receiver_id m = b) \/
  (Message.sender_id m = b /\ Message.receiver_id m = a).

(** What the conversation read of [me] with [other] does to a stored row: only
    the read flag can differ, and it is set on the rows of the conversation
    that [me] received. *)
Definition read_effect (me other : Z) (m m' : Message.t) : Prop :=
  Message.id m' = Message.id m /\
  Message.content m' = Message.content m /\
  Message.sender_id m' = Message.sender_id m /\
  Message.receiver_id m' = Message.receiver_id m /\
  Message.created_at m' = Message.created_at m /\
  Message.is_read m'
  = (Message.is_read m
     || (in_conversation me other m && (Message.receiver_id m =? me))).

(** The request [ev] is the conversation read in which the receiver of [m]
    reads the messages exchanged with the sender of [m]. *)
Definition read_by_receiver (db : DB) (ev : Event) (m : Message.t) : Prop :=
  exists subject current_user user_id,
    ev = Authenticated subject (GetConversation user_id) /\
    get_current_user db subject = Ok current_user /\
    User.id current_user = Message.receiver_id m /\
    user_id = Message.sender_id m.

(** A stored message before and after the request [ev]: the same message,
    never taken from read to unread, and taken from unread to read by the
    receiver's conversation read only. *)
Definition message_kept (db : DB) (ev : Event) (m m' : Message.t) : Prop :=
  Message.id m' = Message.id m /\
  Message.content m' = Message.content m /\
  Message.sender_id m' = Message.sender_id m /\
  Message.receiver_id m' = Message.receiver_id m /\
  Message.created_at m' = Message.created_at m /\
  (Message.is_read m = true -> Message.is_read m' = true) /\
  (Message.is_read m = false -> Message.is_read m' = true ->
   read_by_receiver db ev m).

(** The clock never runs backwards: a later reading is no smaller. *)
Definition clock_monotone (env : Env) : Prop :=
  forall i j : nat, (i <= j)%nat -> utcnow env i <= utcnow env j.

(** The timestamps of a post are in order. *)
Definition timestamps_ordered (p : Post.t) : Prop :=
  Post.created_at p <= Post.updated_at p.

(** The query holds one of the two [LIKE] wildcards. *)
Fixpoint has_wildcard (q : string) : bool :=
  match q with
  | EmptyString => false
  | String c q' => Ascii.eqb c "%" || Ascii.eqb c "_" || has_wildcard q'
  end.

(** [c] and [d] are the same letter when case is ignored: the same
    character, or one of the capitals A-Z (codes 65 to 90) and its small
    letter (32 higher). *)
Definition same_letter (c d : ascii) : Prop :=
  let n := nat_of_ascii c in
  let m := nat_of_ascii d in
  (n = m \/ (65 <= n <= 90 /\ m = n + 32) \/ (65 <= m <= 90 /\ n = m + 32))%nat.

(** Two texts that are equal up to the case of their letters. *)
Inductive same_text : string -> string -> Prop :=
| same_text_empty : same_text EmptyString EmptyString
| same_text_letter (c d : ascii) (s t : string) :
    same_letter c d -> same_text s t -> same_text (String c s) (String d t).

(** [q] occurs in [s] when letter case (of A-Z) is ignored: the
    specification's "case-insensitive substring". *)
Definition contains_ci (q s : string) : Prop :=
  exists before found after,
    s = (before ++ found ++ after)%string /\ same_text q found.

(** [p] starts [s]. *)
Fixpoint prefixb (p s : string) : bool :=
  match p, s with
  | EmptyString, _ => true
  | String c p', String d s' => Ascii.eqb c d && prefixb p' s'
  | String _ _, EmptyString => false
  end.

(** [q] starts at some position of [s]. *)
Fixpoint substringb (q s : string) : bool :=
  prefixb q s ||
  match s with
  | EmptyString => false
  | String _ s' => substringb q s'
  end.

(** The decision procedure for [contains_ci]. *)
Definition contains_cib (q s : string) : bool :=
  substringb (lower q) (lower s).

(** The posts that match the query in the specification's sense. *)
Definition matches_query (q : string) (p : Post.t) : bool :=
  contains_cib q (Post.title p) || contains_cib q (Post.content p).

(** [alice] registers and posts "Hello" twenty-one times. *)
Definition crowded_db : DB :=
  world_db
    (run scenario_env
       (Public (Register "alice@example.org" "alice" "Alice" "secret-a")
        :: repeat (Authenticated "alice"
                     (CreatePost "Hello" "First post" "blog" "sports" None))
                  21)
       init_world).

(** No row of the follow table joins a user to themself. *)
Definition no_self_follow (db : DB) : Prop :=
  forall e, In e (user_followers db) -> fst e <> snd e.

(** The primary key of the user table. *)
Definition user_ids_unique (db : DB) : Prop :=
  NoDup (map User.id (users db)).

(** A rewrite of a user row that leaves the identity columns alone. *)
Definition keeps_identity (f : User.t -> User.t) : Prop :=
  forall u, User.id (f u) = User.id u /\
            User.email (f u) = User.email u /\
            User.username (f u) = User.username u /\
            User.hashed_password (f u) = User.hashed_password u /\
            User.created_at (f u) = User.created_at u.

(** A rewrite of a post row that leaves key, owner, type and creation time
    alone. *)
Definition keeps_ownership (f : Post.t -> Post.t) : Prop :=
  forall p, Post.id (f p) = Post.id p /\
            Post.author_id (f p) = Post.author_id p /\
            Post.post_type (f p) = Post.post_type p /\
            Post.created_at (f p) = Post.created_at p.

(** The elementary changes of the database.  [effect db db'] holds when [db']
    is [db] after one of them; every request the server serves is one
    ([handle_effect]). *)
Inductive effect (db : DB) : DB -> Prop :=
| eff_none : effect db db
| eff_add_user (u : User.t) :
    User.id u = next_id (map User.id (users db)) ->
    (forall v, In v (users db) ->
               User.email v <> User.email u /\
               User.username v <> User.username u) ->
    effect db (with_users db (users db ++ [u]))
| eff_rewrite_user (key : Z) (f : User.t -> User.t) :
    keeps_identity f ->
    effect db (update_user key f db)
| eff_add_follow (a b : User.t) :
    In a (users db) -> In b (users db) ->
    User.username a <> User.username b ->
    ~ In (User.id a, User.id b) (user_followers db) ->
    effect db (with_user_followers db
                 (user_followers db ++ [(User.id a, User.id b)]))
| eff_remove_follow (e : Z * Z) :
    effect db (with_user_followers db (remove_first e (user_followers db)))
| eff_add_post (p : Post.t) :
    Post.id p = next_id (map Post.id (posts db)) ->
    (exists a, In a (users db) /\ Post.author_id p = User.id a) ->
    effect db (with_posts db (posts db ++ [p]))
| eff_rewrite_post (key : Z) (f : Post.t -> Post.t) :
    keeps_ownership f ->
    effect db (update_post_row key f db)
| eff_delete_post (pid : Z) :
    effect db (session_delete_post db pid)
| eff_add_like (u : User.t) (p : Post.t) :
    In u (users db) -> In p (posts db) ->
    ~ In (User.id u, Post.id p) (post_likes db) ->
    effect db (with_post_likes db
                 (post_likes db ++ [(User.id u, Post.id p)]))
| eff_remove_like (e : Z * Z) :
    effect db (with_post_likes db (remove_first e (post_likes db)))
| eff_add_save (u : User.t) (p : Post.t) :
    In u (users db) -> In p (posts db) ->
    ~ In (User.id u, Post.id p) (post_saves db) ->
    effect db (with_post_saves db
                 (post_saves db ++ [(User.id u, Post.id p)]))
| eff_remove_save (e : Z * Z) :
    effect db (with_post_saves db (remove_first e (post_saves db)))
| eff_add_comment (c : Comment.t) :
    Comment.id c = next_id (map Comment.id (comments db)) ->
    (exists a, In a (users db) /\ Comment.author_id c = User.id a) ->
    (exists p, In p (posts db) /\ Comment.post_id c = Some (Post.id p)) ->
    effect db (with_comments db (comments db ++ [c]))
| eff_add_message (m : Message.t) :
    Message.id m = next_id (map Message.id (messages db)) ->
    Message.is_read m = false ->
    (exists a, In a (users db) /\ Message.sender_id m = User.id a) ->
    (exists b, In b (users db) /\ Message.receiver_id m = User.id b) ->
    effect db (with_messages db (messages db ++ [m]))
| eff_mark_read (me other : Z) :
    effect db
      (with_messages db
         (map (fun m => if in_conversation me other m
                        then mark_read me m else m) (messages db))).

(** A user, a post with that key is stored. *)
Definition has_user (db : DB) (key : Z) : Prop :=
  In key (map User.id (users db)).

Definition has_post (db : DB) (key : Z) : Prop :=
  In key (map Post.id (posts db)).

(** Primary keys: unique in each table. *)
Definition keys_unique (db : DB) : Prop :=
  NoDup (map User.id (users db)) /\
  NoDup (map Post.id (posts db)) /\
  NoDup (map Comment.id (comments db)) /\
  NoDup (map Message.id (messages db)).

(** Primary keys start at 1. *)
Definition keys_positive (db : DB) : Prop :=
  Forall (fun k => 1 <= k) (map User.id (users db)) /\
  Forall (fun k => 1 <= k) (map Post.id (posts db)) /\
  Forall (fun k => 1 <= k) (map Comment.id (comments db)) /\
  Forall (fun k => 1 <= k) (map Message.id (messages db)).

(** The [unique=True] columns of [users]. *)
Definition identities_unique (db : DB) : Prop :=
  NoDup (map User.email (users db)) /\
  NoDup (map User.username (users db)).

(** Set semantics of the three association tables: no row twice. *)
Definition edges_unique (db : DB) : Prop :=
  NoDup (post_likes db) /\ NoDup (post_saves db) /\
  NoDup (user_followers db).

(** Every foreign key that is not NULL points at a stored row. *)
Definition references_resolve (db : DB) : Prop :=
  (forall e, In e (post_likes db) -> has_user db (fst e) /\ has_post db (snd e))
  /\
  (forall e, In e (post_saves db) -> has_user db (fst e) /\ has_post db (snd e))
  /\
  (forall e, In e (user_followers db) ->
             has_user db (fst e) /\ has_user db (snd e)) /\
  (forall p, In p (posts db) -> has_user db (Post.author_id p)) /\
  (forall c, In c (comments db) ->
             has_user db (Comment.author_id c) /\
             forall q, Comment.post_id c = Some q -> has_post db q) /\
  (forall m, In m (messages db) ->
             has_user db (Message.sender_id m) /\
             has_user db (Message.receiver_id m)).

(** The six invariants together. *)
Definition consistent (db : DB) : Prop :=
  keys_unique db /\ keys_positive db /\ identities_unique db /\
  edges_unique db /\ references_resolve db /\ no_self_follow db.

(** 1 for [true], 0 for [false]. *)
Definition one_if (b : bool) : nat := if b then 1%nat else 0%nat.

(** A comment before and after the deletion of post [pid]: the same comment,
    detached from the post if it was attached to it. *)
Definition comment_detached (pid : Z) (c c' : Comment.t) : Prop :=
  Comment.id c' = Comment.id c /\
  Comment.content c' = Comment.content c /\
  Comment.author_id c' = Comment.author_id c /\
  Comment.created_at c' = Comment.created_at c /\
  Comment.post_id c'
  = match Comment.post_id c with
    | Some q => if q =? pid then None else Some q
    | None => None
    end.

(** What a text field of an update form does to its column: a supplied,
    non-empty text replaces the stored one, a field that is absent or empty
    leaves it. *)
Definition field_applied (field : option string) (old new : string) : Prop :=
  (forall s, field = Some s -> s <> ""%string -> new = s) /\
  (no_text field -> new = old).

(** The reference stored for a file written by a handler. *)
Definition stored_path (bucket uuid : string) (f : UploadFile) : string :=
  ("/uploads/" ++ bucket ++ "/" ++ uuid ++ "." ++ split_dot_last (filename f))%string.

(** The post [p] after a committed update: key, owner, type and creation
    time as before, each text column as its field says, the media reference
    kept without a file and pointing at the written file with one,
    [updated_at] the reading of the clock. *)
Definition post_rewritten (title content category : option string)
    (media : option UploadFile) (uuid : string) (now : Z) (p p' : Post.t)
    : Prop :=
  Post.id p' = Post.id p /\
  Post.author_id p' = Post.author_id p /\
  Post.post_type p' = Post.post_type p /\
  Post.created_at p' = Post.created_at p /\
  field_applied title (Post.title p) (Post.title p') /\
  field_applied content (Post.content p) (Post.content p') /\
  field_applied category (Post.category p) (Post.category p') /\
  (media = None -> Post.media_url p' = Post.media_url p) /\
  (forall f, media = Some f ->
             Post.media_url p'
             = stored_path (if String.eqb (Post.post_type p) "video"
                            then "videos" else "images") uuid f) /\
  Post.updated_at p' = now.

(** The same for a committed profile update. *)
Definition profile_rewritten (full_name bio : option string)
    (avatar : option UploadFile) (uuid : string) (u u' : User.t) : Prop :=
  User.id u' = User.id u /\
  User.email u' = User.email u /\
  User.username u' = User.username u /\
  User.hashed_password u' = User.hashed_password u /\
  User.created_at u' = User.created_at u /\
  field_applied full_name (User.full_name u) (User.full_name u') /\
  field_applied bio (User.bio u) (User.bio u') /\
  (avatar = None -> User.avatar_url u' = User.avatar_url u) /\
  (forall f, avatar = Some f ->
             User.avatar_url u' = stored_path "images" uuid f).

(* ================================================================== *)
(** * Properties *)

(* ------------------------------------------------------------------ *)
(** ** Keys, rows and collections *)

Lemma pair_eqb_eq (a b : Z * Z) : pair_eqb a b = true <-> a = b.
Proof.
  unfold pair_eqb. destruct a as [a1 a2], b as [b1 b2]; simpl.
  rewrite andb_true_iff, !Z.eqb_eq. split.
  - intros [-> ->]. reflexivity.
  - intros H. inversion H. split; reflexivity.
Qed.

Lemma pair_eqb_refl (a : Z * Z) : pair_eqb a a = true.
Proof. apply pair_eqb_eq. reflexivity. Qed.

Lemma mem_In (x : Z) (l : list Z) : mem x l = true <-> In x l.
Proof.
  unfold mem. rewrite existsb_exists. split.
  - intros [y [Hy E]]. apply Z.eqb_eq in E. subst. exact Hy.
  - intros H. exists x. split; [exact H | apply Z.eqb_refl].
Qed.

Lemma mem_false_In (x : Z) (l : list Z) : mem x l = false <-> ~ In x l.
Proof.
  rewrite <- mem_In. destruct (mem x l); split; intros H.
  - discriminate.
  - exfalso. apply H. reflexivity.
  - intros H'. discriminate.
  - reflexivity.
Qed.

Lemma In_by_fst (x key : Z) (es : list (Z * Z)) :
  In x (map snd (filter (fun e => fst e =? key) es)) <-> In (key, x) es.
Proof.
  rewrite in_map_iff. split.
  - intros [[a b] [E H]]. apply filter_In in H. destruct H as [H Hk].
    simpl in *. apply Z.eqb_eq in Hk. subst. exact H.
  - intros H. exists (key, x). split; [reflexivity |].
    apply filter_In. split; [exact H | apply Z.eqb_refl].
Qed.

Lemma In_following (db : DB) (a b : Z) :
  In b (following db a) <-> In (a, b) (user_followers db).
Proof. apply In_by_fst. Qed.

(** Removing the row that was appended to a table without it gives the table
    back. *)
Lemma remove_first_app_new (x : Z * Z) (l : list (Z * Z)) :
  ~ In x l -> remove_first x (l ++ [x]) = l.
Proof.
  induction l as [| y l IH]; simpl; intros H.
  - rewrite pair_eqb_refl. reflexivity.
  - destruct (pair_eqb x y) eqn:E.
    + apply pair_eqb_eq in E. subst. exfalso. apply H. left. reflexivity.
    + f_equal. apply IH. intros H'. apply H. right. exact H'.
Qed.

Lemma In_remove_first (x y : Z * Z) (l : list (Z * Z)) :
  In y (remove_first x l) -> In y l.
Proof.
  induction l as [| z l IH]; simpl; [tauto |].
  destruct (pair_eqb x z); simpl; intuition.
Qed.

Lemma In_remove_first_other (x y : Z * Z) (l : list (Z * Z)) :
  y <> x -> In y l -> In y (remove_first x l).
Proof.
  intros Hne. induction l as [| z l IH]; simpl; [tauto |].
  destruct (pair_eqb x z) eqn:E; simpl.
  - apply pair_eqb_eq in E. subst z. intros [H | H]; [congruence | exact H].
  - intros [H | H]; [left; exact H | right; apply IH; exact H].
Qed.

Lemma NoDup_remove_first (x : Z * Z) (l : list (Z * Z)) :
  NoDup l -> NoDup (remove_first x l) /\ ~ In x (remove_first x l).
Proof.
  induction 1 as [| y l Hy Hl IH]; simpl.
  - split; [constructor | tauto].
  - destruct (pair_eqb x y) eqn:E.
    + apply pair_eqb_eq in E. subst y. split; assumption.
    + destruct IH as [IH1 IH2]. split.
      * constructor; [| exact IH1].
        intros H. apply Hy. eapply In_remove_first. exact H.
      * intros [H | H]; [| exact (IH2 H)].
        subst y. rewrite pair_eqb_refl in E. discriminate.
Qed.

Lemma NoDup_app_new {A : Type} (x : A) (l : list A) :
  NoDup l -> ~ In x l -> NoDup (l ++ [x]).
Proof.
  induction 1 as [| y l Hy Hl IH]; simpl; intros Hx.
  - constructor; [tauto | constructor].
  - constructor.
    + rewrite in_app_iff. simpl. intros [H | [H | []]]; [tauto |].
      subst. apply Hx. left. reflexivity.
    + apply IH. intros H. apply Hx. right. exact H.
Qed.

Lemma count_row_NoDup (e : Z * Z) (l : list (Z * Z)) :
  NoDup l -> In e l -> count_row e l = 1%nat.
Proof.
  unfold count_row. induction 1 as [| y l Hy Hl IH]; simpl; [tauto |].
  intros [H | H].
  - subst y. rewrite pair_eqb_refl. simpl. f_equal.
    assert (Hn : forall l', ~ In e l' -> filter (pair_eqb e) l' = []).
    { induction l' as [| z l' IH']; simpl; [reflexivity |]. intros Hz.
      destruct (pair_eqb e z) eqn:E.
      - apply pair_eqb_eq in E. subst. exfalso. apply Hz. left. reflexivity.
      - apply IH'. intros H'. apply Hz. right. exact H'. }
    rewrite (Hn l Hy). reflexivity.
  - destruct (pair_eqb e y) eqn:E.
    + apply pair_eqb_eq in E. subst y. contradiction.
    + apply IH. exact H.
Qed.

(* ------------------------------------------------------------------ *)
(** ** Finding rows *)

Lemma find_post_id (db : DB) (pid : Z) (post : Post.t) :
  find_post db pid = Some post -> Post.id post = pid /\ In post (posts db).
Proof.
  unfold find_post. intros H. apply find_some in H. destruct H as [H1 H2].
  apply Z.eqb_eq in H2. split; assumption.
Qed.

Lemma find_user_by_username_some (db : DB) (name : string) (u : User.t) :
  find_user_by_username db name = Some u ->
  User.username u = name /\ In u (users db).
Proof.
  unfold find_user_by_username. intros H. apply find_some in H.
  destruct H as [H1 H2]. apply String.eqb_eq in H2. split; assumption.
Qed.

(* ------------------------------------------------------------------ *)
(** ** Likes *)

Lemma scenario_db_rows :
  users scenario_db = [alice; bob] /\
  posts scenario_db = [Post.mk 1 "Hello" "First post" "blog" "sports" "" 1 4 5] /\
  post_likes scenario_db = [].
Proof. vm_compute. repeat split. Qed.

(** C1: on an existing post neither call gets as far as the like table.
    [like_post] and [unlike_post] read [post.liked_by] on the post they have
    just selected; the read raises, the request is answered 500, no row is
    appended or removed and no like count is returned (the scenario expects
    the counts 1 and 0). *)
Theorem like_post_raises_on_stored_post
    (db : DB) (current_user : User.t) (post_id : Z) (post : Post.t) :
  find_post db post_id = Some post ->
  like_post db current_user post_id = (internal_error, db) /\
  unlike_post db current_user post_id = (internal_error, db).
Proof.
  intros Hfind. unfold like_post, unlike_post. rewrite Hfind.
  split; reflexivity.
Qed.

Lemma like_post_raises_on_stored_post_witness :
  find_post scenario_db 1
  = Some (Post.mk 1 "Hello" "First post" "blog" "sports" "" 1 4 5) /\
  like_post scenario_db bob 1 = (internal_error, scenario_db) /\
  unlike_post scenario_db bob 1 = (internal_error, scenario_db).
Proof.
  split; [reflexivity|].
  apply (like_post_raises_on_stored_post scenario_db bob 1
           (Post.mk 1 "Hello" "First post" "blog" "sports" "" 1 4 5)).
  reflexivity.
Defined.
(* ------------------------------------------------------------------ *)
(** ** Follows *)

(** C2: a caller who names themself in [follow_user] gets the 400 answer
    "You cannot follow yourself", whatever the database holds, and the
    database, its follow edges included, is the one before the call. *)
Theorem follow_self_rejected (db : DB) (current_user : User.t) :
  follow_user db current_user (User.username current_user)
  = (HTTPException 400 "You cannot follow yourself", db).
Proof.
  unfold follow_user. rewrite String.eqb_refl. reflexivity.
Qed.

(** The same through the server: the authenticated caller is the user named
    by the token, and following that name changes nothing. *)
Lemma follow_self_rejected_by_server (env : Env) (n : nat) (db : DB)
    (subject : string) :
  find_user_by_username db subject <> None ->
  handle env n db (Authenticated subject (FollowUser subject)) = (400, db).
Proof.
  intros H. unfold handle, get_current_user.
  destruct (find_user_by_username db subject) as [u |] eqn:E; [| congruence].
  apply find_user_by_username_some in E. destruct E as [E _]. subst subject.
  unfold dispatch, answer, follow_user. rewrite String.eqb_refl. reflexivity.
Qed.

(* ------------------------------------------------------------------ *)
(** ** Updating a post *)

(** C4: [update_post] called by anyone but the author of an existing post
    answers 403 and returns the database it was given, so no column of the
    post (title, content, category, media_url, updated_at) has changed. *)
Theorem update_post_non_author_forbidden
    (db : DB) (current_user : User.t) (post_id : Z) (post : Post.t)
    (title content category : option string) (media : option UploadFile)
    (uuid : string) (now : Z) :
  find_post db post_id = Some post ->
  Post.author_id post <> User.id current_user ->
  update_post db current_user post_id title content category media uuid now
  = (HTTPException 403 "Not authorized to update this post", db).
Proof.
  intros Hfind Hauthor. unfold update_post. rewrite Hfind.
  apply Z.eqb_neq in Hauthor. rewrite Hauthor. reflexivity.
Qed.

Lemma update_post_non_author_forbidden_witness :
  update_post scenario_db bob 1 (Some "Taken over"%string) None None None
              "0000" 9
  = (HTTPException 403 "Not authorized to update this post", scenario_db).
Proof.
  apply (update_post_non_author_forbidden scenario_db bob 1
           (Post.mk 1 "Hello" "First post" "blog" "sports" "" 1 4 5)).
  - reflexivity.
  - simpl. lia.
Defined.

(* ------------------------------------------------------------------ *)
(** ** Empty form fields *)

Lemma assign_if_truthy_keeps_text (field : option string) (stored : string) :
  stored <> ""%string -> assign_if_truthy field stored <> ""%string.
Proof.
  intros H. unfold assign_if_truthy. destruct field as [s |]; [| exact H].
  destruct (String.eqb s "") eqn:E; [exact H |].
  apply String.eqb_neq in E. exact E.
Qed.

Lemma Forall2_map_same {A : Type} (R : A -> A -> Prop) (f : A -> A)
    (l : list A) :
  (forall x, R x (f x)) -> Forall2 R l (map f l).
Proof.
  intros H. induction l as [| x l IH]; simpl; constructor; auto.
Qed.

Lemma map_map_same {A B : Type} (g : A -> B) (f : A -> A) (l : list A) :
  (forall x, g (f x) = g x) -> map g (map f l) = map g l.
Proof.
  intros H. rewrite map_map. apply map_ext. exact H.
Qed.

Lemma assign_if_truthy_no_text (field : option string) (stored : string) :
  no_text field -> assign_if_truthy field stored = stored.
Proof. intros [H | H]; subst field; reflexivity. Qed.

(** The author of the scenario's post sends an empty title and a new body:
    the title stays "Hello", the body is replaced. *)
Lemma scenario_empty_title_keeps_hello :
  posts (snd (update_post scenario_db alice 1 (Some ""%string)
                (Some "Edited"%string) None None "0000" 9))
  = [Post.mk 1 "Hello" "Edited" "blog" "sports" "" 1 4 9].
Proof. reflexivity. Qed.

(** C10: in [update_post] and [update_user_profile] a text field sent as the
    empty string does what an absent field does; a field that is absent or
    empty leaves its column as stored, in every row; and no call of either
    handler takes a text column of any row from a non-empty value to the
    empty string. *)
Theorem empty_field_is_absent :
  (forall db cu pid title content category media uuid now,
      update_post db cu pid (Some ""%string) content category media uuid now
      = update_post db cu pid None content category media uuid now /\
      update_post db cu pid title (Some ""%string) category media uuid now
      = update_post db cu pid title None category media uuid now /\
      update_post db cu pid title content (Some ""%string) media uuid now
      = update_post db cu pid title content None media uuid now) /\
  (forall db cu full_name bio avatar uuid,
      update_user_profile db cu (Some ""%string) bio avatar uuid
      = update_user_profile db cu None bio avatar uuid /\
      update_user_profile db cu full_name (Some ""%string) avatar uuid
      = update_user_profile db cu full_name None avatar uuid) /\
  (forall db cu pid title content category media uuid now,
      let db' := snd (update_post db cu pid title content category media
                        uuid now) in
      (no_text title -> map Post.title (posts db') = map Post.title (posts db)) /\
      (no_text content ->
       map Post.content (posts db') = map Post.content (posts db)) /\
      (no_text category ->
       map Post.category (posts db') = map Post.category (posts db))) /\
  (forall db cu full_name bio avatar uuid,
      let db' := snd (update_user_profile db cu full_name bio avatar uuid) in
      (no_text full_name ->
       map User.full_name (users db') = map User.full_name (users db)) /\
      (no_text bio -> map User.bio (users db') = map User.bio (users db))) /\
  (forall db cu pid title content category media uuid now,
      Forall2 post_text_kept (posts db)
        (posts (snd (update_post db cu pid title content category media
                       uuid now)))) /\
  (forall db cu full_name bio avatar uuid,
      Forall2 user_text_kept (users db)
        (users (snd (update_user_profile db cu full_name bio avatar uuid)))).
Proof.
  split; [| split; [| split; [| split; [| split]]]].
  - intros. repeat split; reflexivity.
  - intros. repeat split; reflexivity.
  - intros. subst db'. unfold update_post.
    destruct (find_post db pid) as [post |]; [| repeat split; reflexivity].
    destruct (negb (Post.author_id post =? User.id cu));
      [repeat split; reflexivity |].
    destruct (negb (upload_written media)); [repeat split; reflexivity |].
    cbv zeta. cbn [snd]. unfold update_post_row. cbn [posts with_posts].
    repeat split; intros H; apply map_map_same; intros p;
      destruct (Post.id p =? Post.id post); cbn; try reflexivity;
      apply assign_if_truthy_no_text; exact H.
  - intros. subst db'. unfold update_user_profile. cbv zeta.
    destruct (negb (upload_written avatar)); [repeat split; reflexivity |].
    cbn [snd]. unfold update_user. cbn [users with_users].
    repeat split; intros H; apply map_map_same; intros u;
      destruct (User.id u =? User.id cu); cbn; try reflexivity;
      apply assign_if_truthy_no_text; exact H.
  - intros. unfold update_post.
    assert (Hsame : Forall2 post_text_kept (posts db) (posts db)).
    { rewrite <- (map_id (posts db)) at 2. apply Forall2_map_same.
      intros p. unfold post_text_kept. tauto. }
    destruct (find_post db pid) as [post |]; [| exact Hsame].
    destruct (negb (Post.author_id post =? User.id cu)); [exact Hsame |].
    destruct (negb (upload_written media)); [exact Hsame |].
    cbv zeta. cbn [snd]. unfold update_post_row. cbn [posts with_posts].
    apply Forall2_map_same. intros p.
    destruct (Post.id p =? Post.id post); unfold post_text_kept; cbn;
      [| tauto].
    repeat split; try (apply assign_if_truthy_keeps_text).
    intros Hm. destruct media as [f |]; [| exact Hm].
    destruct (String.eqb (Post.post_type p) "video"); discriminate.
  - intros. unfold update_user_profile. cbv zeta.
    assert (Hsame : Forall2 user_text_kept (users db) (users db)).
    { rewrite <- (map_id (users db)) at 2. apply Forall2_map_same.
      intros u. unfold user_text_kept. tauto. }
    destruct (negb (upload_written avatar)); [exact Hsame |].
    cbn [snd]. unfold update_user. cbn [users with_users].
    apply Forall2_map_same. intros u.
    destruct (User.id u =? User.id cu); unfold user_text_kept; cbn;
      [| tauto].
    repeat split; try (apply assign_if_truthy_keeps_text).
    intros Hm. destruct avatar as [f |]; [discriminate | exact Hm].
Qed.

(* ------------------------------------------------------------------ *)
(** ** Reachable databases *)

Lemma run_app (env : Env) (evs evs' : list Event) (w : World) :
  run env (evs ++ evs') w = run env evs' (run env evs w).
Proof. unfold run. apply fold_left_app. Qed.

(** Induction over the requests served so far. *)
Lemma reachable_ind (P : DB -> Prop) :
  P empty_db ->
  (forall env n db ev, P db -> P (snd (handle env n db ev))) ->
  forall db, reachable db -> P db.
Proof.
  intros Hinit Hstep db [env [evs ->]].
  induction evs as [| ev evs IH] using rev_ind.
  - exact Hinit.
  - rewrite run_app. simpl. apply Hstep. exact IH.
Qed.

(** Case analysis on the branches of a handler. *)
Ltac handler_cases :=
  repeat match goal with
         | |- context [match ?x with _ => _ end] => destruct x eqn:?
         end.

Ltac open_handle :=
  unfold handle, dispatch_public, dispatch, answer,
    login_for_access_token, register_user, read_users_me,
    update_user_profile, get_user_profile, follow_user, unfollow_user,
    get_posts, create_post, get_post, update_post, delete_post,
    get_user_posts, like_post, unlike_post, save_post, unsave_post,
    get_post_comments, create_comment, get_messages, get_conversation,
    send_message, search.

(** What one request does to the follow table: nothing, one new row that
    was not there, or the removal of one row. *)
Lemma handle_user_followers (env : Env) (n : nat) (db : DB) (ev : Event) :
  let es := user_followers db in
  let es' := user_followers (snd (handle env n db ev)) in
  es' = es \/
  (exists e, ~ In e es /\ es' = es ++ [e]) \/
  (exists e, es' = remove_first e es).
Proof.
  cbv zeta. destruct ev as [[|] | subject req].
  - open_handle. handler_cases; left; reflexivity.
  - open_handle. handler_cases; left; reflexivity.
  - unfold handle. destruct (get_current_user db subject) as [cu | c d];
      [| left; reflexivity].
    destruct req; open_handle; cbv zeta; handler_cases; cbn [snd fst];
      try (left; reflexivity).
    + right. left. eexists. split; [| reflexivity].
      rewrite <- In_following. apply mem_false_In.
      match goal with H : negb _ = true |- _ => apply negb_true_iff in H; exact H end.
    + right. right. eexists. reflexivity.
Qed.

Lemma reachable_follows_NoDup (db : DB) :
  reachable db -> NoDup (user_followers db).
Proof.
  revert db. apply (reachable_ind (fun db => NoDup (user_followers db))).
  - constructor.
  - intros env n db0 ev H.
    destruct (handle_user_followers env n db0 ev) as [E | [[e [Hn E]] | [e E]]];
      rewrite E.
    + exact H.
    + apply NoDup_app_new; assumption.
    + apply NoDup_remove_first. exact H.
Qed.

(** [follow_user] on a user other than the caller: the edge is appended when
    the caller's [following] lacks it, and the answer is the same either way. *)
Lemma follow_user_other (db : DB) (current_user user_to_follow : User.t)
    (username : string) :
  User.username current_user <> username ->
  find_user_by_username db username = Some user_to_follow ->
  follow_user db current_user username
  = (Ok ("Now following " ++ username)%string,
     if mem (User.id user_to_follow) (following db (User.id current_user))
     then db
     else with_user_followers db
            (user_followers db
             ++ [(User.id current_user, User.id user_to_follow)])).
Proof.
  intros Hne Hfind. unfold follow_user.
  destruct (String.eqb username (User.username current_user)) eqn:E.
  - apply String.eqb_eq in E. congruence.
  - rewrite Hfind.
    destruct (mem (User.id user_to_follow)
                (following db (User.id current_user))); reflexivity.
Qed.

(** C3: in a reachable database, when the caller follows an existing user
    other than themself twice, both calls succeed, the second leaves the
    database exactly as the first left it, and the follow table then holds
    the edge (caller, target) exactly once and no row twice. *)
Theorem follow_twice_one_edge
    (db : DB) (current_user user_to_follow : User.t) (username : string) :
  reachable db ->
  User.username current_user <> username ->
  find_user_by_username db username = Some user_to_follow ->
  let r1 := follow_user db current_user username in
  let r2 := follow_user (snd r1) current_user username in
  fst r1 = Ok ("Now following " ++ username)%string /\
  fst r2 = Ok ("Now following " ++ username)%string /\
  snd r2 = snd r1 /\
  count_row (User.id current_user, User.id user_to_follow)
            (user_followers (snd r2)) = 1%nat /\
  NoDup (user_followers (snd r2)).
Proof.
  intros Hreach Hne Hfind. cbv zeta.
  pose proof (reachable_follows_NoDup db Hreach) as Hnodup.
  rewrite (follow_user_other db current_user user_to_follow username Hne Hfind).
  cbn [fst snd].
  destruct (mem (User.id user_to_follow) (following db (User.id current_user)))
    eqn:Hmem.
  - rewrite (follow_user_other db current_user user_to_follow username
               Hne Hfind).
    rewrite Hmem. cbn [fst snd]. repeat split; try assumption.
    apply count_row_NoDup; [exact Hnodup |].
    apply In_following. apply mem_In. exact Hmem.
  - set (db1 := with_user_followers db
                  (user_followers db
                   ++ [(User.id current_user, User.id user_to_follow)])).
    assert (Hfind1 : find_user_by_username db1 username = Some user_to_follow)
      by exact Hfind.
    assert (Hmem1 : mem (User.id user_to_follow)
                      (following db1 (User.id current_user)) = true).
    { apply mem_In. apply In_following. unfold db1. cbn [user_followers
        with_user_followers]. apply in_or_app. right. left. reflexivity. }
    assert (Hnodup1 : NoDup (user_followers db1)).
    { unfold db1. cbn [user_followers with_user_followers].
      apply NoDup_app_new; [exact Hnodup |].
      rewrite <- In_following. apply mem_false_In. exact Hmem. }
    rewrite (follow_user_other db1 current_user user_to_follow username
               Hne Hfind1).
    rewrite Hmem1. cbn [fst snd]. repeat split; try assumption.
    apply count_row_NoDup; [exact Hnodup1 |].
    apply In_following. apply mem_In. exact Hmem1.
Qed.

Lemma scenario_db_reachable : reachable scenario_db.
Proof. exists scenario_env, scenario_events. reflexivity. Qed.

Lemma follow_twice_one_edge_witness :
  let r1 := follow_user scenario_db alice "bob" in
  let r2 := follow_user (snd r1) alice "bob" in
  fst r1 = Ok "Now following bob"%string /\
  fst r2 = Ok "Now following bob"%string /\
  snd r2 = snd r1 /\
  count_row (1, 2) (user_followers (snd r2)) = 1%nat /\
  NoDup (user_followers (snd r2)).
Proof.
  apply (follow_twice_one_edge scenario_db alice bob "bob").
  - exists scenario_env, scenario_events. reflexivity.
  - discriminate.
  - reflexivity.
Defined.

(* ------------------------------------------------------------------ *)
(** ** [order_by], [offset] and [limit] *)

Section SortFacts.
Context {A : Type}.
Variable le : A -> A -> bool.
Hypothesis le_total : forall a b, le a b = true \/ le b a = true.
Hypothesis le_trans :
  forall a b c, le a b = true -> le b c = true -> le a c = true.

Let R (a b : A) : Prop := le a b = true.

Lemma insert_by_perm (x : A) (l : list A) :
  Permutation (x :: l) (insert_by le x l).
Proof.
  induction l as [| y l IH]; simpl.
  - apply Permutation_refl.
  - destruct (le x y).
    + apply Permutation_refl.
    + eapply perm_trans; [apply perm_swap |]. apply perm_skip. exact IH.
Qed.

Lemma sort_by_perm (l : list A) : Permutation l (sort_by le l).
Proof.
  induction l as [| x l IH]; simpl.
  - apply perm_nil.
  - eapply perm_trans; [apply perm_skip; exact IH |]. apply insert_by_perm.
Qed.

Lemma In_sort_by (x : A) (l : list A) : In x (sort_by le l) <-> In x l.
Proof.
  split; apply Permutation_in; [apply Permutation_sym |]; apply sort_by_perm.
Qed.

Lemma insert_by_sorted (x : A) (l : list A) :
  StronglySorted R l -> StronglySorted R (insert_by le x l).
Proof.
  induction 1 as [| y l Hl IH Hy]; simpl.
  - constructor; constructor.
  - destruct (le x y) eqn:E.
    + constructor; [constructor; assumption |].
      constructor; [exact E |].
      rewrite Forall_forall in *. intros z Hz. eapply le_trans; [exact E |].
      apply Hy. exact Hz.
    + constructor; [exact IH |].
      rewrite Forall_forall in *. intros z Hz.
      apply (Permutation_in _ (Permutation_sym (insert_by_perm x l))) in Hz.
      destruct Hz as [<- | Hz]; [| apply Hy; exact Hz].
      destruct (le_total x y) as [H | H]; [congruence | exact H].
Qed.

Lemma sort_by_sorted (l : list A) : StronglySorted R (sort_by le l).
Proof.
  induction l as [| x l IH]; simpl; [constructor |].
  apply insert_by_sorted. exact IH.
Qed.

(** The sort is stable to the point of leaving a sorted list alone. *)
Lemma sort_by_of_sorted (l : list A) :
  StronglySorted R l -> sort_by le l = l.
Proof.
  induction 1 as [| x l Hl IH Hx]; simpl; [reflexivity |].
  rewrite IH. destruct l as [| y l']; [reflexivity |]. simpl.
  inversion Hx as [| ? ? Hxy _]; subst. unfold R in Hxy. rewrite Hxy.
  reflexivity.
Qed.
End SortFacts.

Lemma StronglySorted_weaken {A : Type} (R1 R2 : A -> A -> Prop) (l : list A) :
  (forall a b, R1 a b -> R2 a b) -> StronglySorted R1 l -> StronglySorted R2 l.
Proof.
  intros H. induction 1 as [| x l Hl IH Hx]; constructor; [exact IH |].
  eapply Forall_impl; [| exact Hx]. intros b. apply H.
Qed.

Lemma order_by_desc_perm {A : Type} (key : A -> Z) (l : list A) :
  Permutation l (order_by_desc key l).
Proof. apply sort_by_perm. Qed.

Lemma order_by_asc_perm {A : Type} (key : A -> Z) (l : list A) :
  Permutation l (order_by_asc key l).
Proof. apply sort_by_perm. Qed.

(** Newest first: every row is at least as recent as the rows after it. *)
Lemma order_by_desc_sorted {A : Type} (key : A -> Z) (l : list A) :
  StronglySorted (fun a b => key b <= key a) (order_by_desc key l).
Proof.
  unfold order_by_desc.
  eapply StronglySorted_weaken;
    [| apply (sort_by_sorted (fun a b => key b <=? key a))].
  - intros a b H. apply Z.leb_le. exact H.
  - intros a b. rewrite !Z.leb_le. lia.
  - intros a b c. rewrite !Z.leb_le. lia.
Qed.

(** Oldest first. *)
Lemma order_by_asc_sorted {A : Type} (key : A -> Z) (l : list A) :
  StronglySorted (fun a b => key a <= key b) (order_by_asc key l).
Proof.
  unfold order_by_asc.
  eapply StronglySorted_weaken;
    [| apply (sort_by_sorted (fun a b => key a <=? key b))].
  - intros a b H. apply Z.leb_le. exact H.
  - intros a b. rewrite !Z.leb_le. lia.
  - intros a b c. rewrite !Z.leb_le. lia.
Qed.

Lemma order_by_asc_of_sorted {A : Type} (key : A -> Z) (l : list A) :
  StronglySorted (fun a b => key a <= key b) l -> order_by_asc key l = l.
Proof.
  intros H. apply sort_by_of_sorted.
  eapply StronglySorted_weaken; [| exact H].
  intros a b Hab. apply Z.leb_le. exact Hab.
Qed.

(** A page is a run of consecutive rows of the list it is cut from. *)
Lemma paginate_segment {A : Type} (skip limit : Z) (l : list A) :
  exists before after, l = before ++ paginate skip limit l ++ after.
Proof.
  unfold paginate. exists (firstn (Z.to_nat skip) l).
  destruct (limit <? 0).
  - exists []. rewrite app_nil_r, firstn_skipn. reflexivity.
  - exists (skipn (Z.to_nat limit) (skipn (Z.to_nat skip) l)).
    rewrite firstn_skipn, firstn_skipn. reflexivity.
Qed.

Lemma In_paginate {A : Type} (skip limit : Z) (x : A) (l : list A) :
  In x (paginate skip limit l) -> In x l.
Proof.
  intros H. destruct (paginate_segment skip limit l) as [before [after E]].
  rewrite E. apply in_or_app. right. apply in_or_app. left. exact H.
Qed.

Lemma traverse_In {A B : Type} (f : A -> option B) (l : list A)
    (ys : list B) (y : B) :
  traverse f l = Some ys -> In y ys -> exists x, In x l /\ f x = Some y.
Proof.
  revert ys. induction l as [| x l IH]; simpl; intros ys H Hy.
  - inversion H. subst. destruct Hy.
  - destruct (f x) as [y0 |] eqn:E; [| discriminate].
    destruct (traverse f l) as [ys0 |]; [| discriminate].
    inversion H. subst. destruct Hy as [<- | Hy].
    + exists x. split; [left; reflexivity | exact E].
    + destruct (IH ys0 eq_refl Hy) as [x' [Hx' Ex']].
      exists x'. split; [right; exact Hx' | exact Ex'].
Qed.

(* ------------------------------------------------------------------ *)
(** ** Deleting a post *)

Lemma post_to_dict_id (db : DB) (viewer : Z) (p : Post.t) (d : PostDict) :
  post_to_dict db viewer p = Some d -> pd_id d = Post.id p.
Proof.
  unfold post_to_dict, relationship. discriminate.
Qed.

(** Every dictionary answered by [get_posts] is the dictionary of a row of
    the post table. *)
Lemma get_posts_rows (db : DB) (current_user : User.t) (skip limit : Z)
    (category filter_type : option string) (ds : list PostDict) (d : PostDict) :
  fst (get_posts db current_user skip limit category filter_type) = Ok ds ->
  In d ds ->
  exists p, In p (posts db) /\ pd_id d = Post.id p.
Proof.
  unfold get_posts. cbn [fst]. intros H Hd.
  match type of H with
  | of_option (traverse ?f ?l) = _ =>
      destruct (traverse f l) as [ds0 |] eqn:E; [| discriminate];
      assert (Hsub : forall p, In p l -> In p (posts db))
  end.
  { intros p Hp. apply In_paginate in Hp.
    assert (Hs : forall l0, (forall q, In q l0 -> In q (posts db)) ->
               forall q,
                 In q match filter_type with
                      | Some t =>
                          if String.eqb t "saved" then
                            filter (fun p => mem (User.id current_user)
                                               (saved_by db (Post.id p))) l0
                          else if String.eqb t "liked" then
                            filter (fun p => mem (User.id current_user)
                                               (liked_by db (Post.id p))) l0
                          else l0
                      | None => l0
                      end -> In q (posts db)).
    { intros l0 Hl0 q Hq. destruct filter_type as [t |]; [| auto].
      destruct (String.eqb t "saved");
        [apply filter_In in Hq; apply Hl0; tauto |].
      destruct (String.eqb t "liked");
        [apply filter_In in Hq; apply Hl0; tauto | auto]. }
    eapply Hs; [| exact Hp]. intros q Hq.
    destruct category as [c |].
    - destruct (negb (String.eqb c "") && negb (String.eqb c "all")).
      + apply filter_In in Hq. destruct Hq as [Hq _].
        apply In_sort_by in Hq. exact Hq.
      + apply In_sort_by in Hq. exact Hq.
    - apply In_sort_by in Hq. exact Hq. }
  simpl in H. inversion H. subst ds0.
  destruct (traverse_In _ _ _ _ E Hd) as [p [Hp Ed]].
  exists p. split; [apply Hsub; exact Hp |].
  eapply post_to_dict_id. exact Ed.
Qed.

(** C5: when the author deletes an existing post, the handler answers
    success and one transition of the database removes every row with the
    post's id together with every like row and every save row that points at
    it; the rows of other posts stay.  Afterwards no listing of [get_posts],
    for any viewer, page, category or scope ([saved], [liked] or none), holds
    a dictionary with that id. *)
Theorem delete_post_removes_post_and_edges
    (db : DB) (current_user : User.t) (post_id : Z) (post : Post.t) :
  find_post db post_id = Some post ->
  Post.author_id post = User.id current_user ->
  let r := delete_post db current_user post_id in
  let db' := snd r in
  fst r = Ok "Post deleted successfully"%string /\
  find_post db' post_id = None /\
  (forall p, In p (posts db') <-> In p (posts db) /\ Post.id p <> post_id) /\
  (forall u q, In (u, q) (post_likes db')
               <-> In (u, q) (post_likes db) /\ q <> post_id) /\
  (forall u q, In (u, q) (post_saves db')
               <-> In (u, q) (post_saves db) /\ q <> post_id) /\
  (forall viewer skip limit category filter_type ds d,
      fst (get_posts db' viewer skip limit category filter_type) = Ok ds ->
      In d ds -> pd_id d <> post_id).
Proof.
  intros Hfind Hauthor. cbv zeta.
  destruct (find_post_id _ _ _ Hfind) as [Hid _].
  unfold delete_post. rewrite Hfind, Hauthor, Z.eqb_refl, Hid. cbn [negb fst snd].
  assert (Hposts : forall p, In p (posts (session_delete_post db post_id))
                             <-> In p (posts db) /\ Post.id p <> post_id).
  { intros p. unfold session_delete_post. cbn [posts].
    rewrite filter_In, negb_true_iff, Z.eqb_neq. tauto. }
  assert (Hedges : forall (es : list (Z * Z)) (u q : Z),
             In (u, q) (filter (fun e => negb (snd e =? post_id)) es)
             <-> In (u, q) es /\ q <> post_id).
  { intros es u q. rewrite filter_In, negb_true_iff, Z.eqb_neq. cbn [snd].
    tauto. }
  split; [reflexivity |].
  split.
  { unfold find_post.
    destruct (find (fun p => Post.id p =? post_id)
                (posts (session_delete_post db post_id))) as [p |] eqn:E;
      [| reflexivity].
    apply find_some in E. destruct E as [Hp Ep]. apply Z.eqb_eq in Ep.
    apply Hposts in Hp. tauto. }
  split; [exact Hposts |].
  split; [exact (Hedges (post_likes db)) |].
  split; [exact (Hedges (post_saves db)) |].
  intros viewer skip limit category filter_type ds d Hds Hd Heq.
  destruct (get_posts_rows _ _ _ _ _ _ _ _ Hds Hd) as [p [Hp Ep]].
  apply Hposts in Hp. destruct Hp as [_ Hp]. congruence.
Qed.

(** The scenario continued: the post of [alice] has a like and a save of
    [bob]; [alice] deletes it, both tables are empty again and both of
    [bob]'s listings come back empty. *)
Lemma scenario_delete_listing :
  let db := scenario_db_liked_saved in
  let db' := snd (delete_post db alice 1) in
  post_likes db = [(2, 1)] /\ post_saves db = [(2, 1)] /\
  posts db' = [] /\ post_likes db' = [] /\ post_saves db' = [] /\
  fst (get_posts db' bob 0 20 None (Some "liked"%string)) = Ok [] /\
  fst (get_posts db' bob 0 20 None (Some "saved"%string)) = Ok [].
Proof. vm_compute. repeat split. Qed.

Lemma delete_post_removes_post_and_edges_witness :
  let db := scenario_db_liked_saved in
  let r := delete_post db alice 1 in
  let db' := snd r in
  fst r = Ok "Post deleted successfully"%string /\
  find_post db' 1 = None /\
  (forall p, In p (posts db') <-> In p (posts db) /\ Post.id p <> 1) /\
  (forall u q, In (u, q) (post_likes db')
               <-> In (u, q) (post_likes db) /\ q <> 1) /\
  (forall u q, In (u, q) (post_saves db')
               <-> In (u, q) (post_saves db) /\ q <> 1) /\
  (forall viewer skip limit category filter_type ds d,
      fst (get_posts db' viewer skip limit category filter_type) = Ok ds ->
      In d ds -> pd_id d <> 1).
Proof.
  apply (delete_post_removes_post_and_edges scenario_db_liked_saved alice 1
           (Post.mk 1 "Hello" "First post" "blog" "sports" "" 1 4 5)).
  - reflexivity.
  - reflexivity.
Defined.

(* ------------------------------------------------------------------ *)
(** ** Conversations *)

Lemma in_conversation_between (me other : Z) (m : Message.t) :
  in_conversation me other m = true <-> between me other m.
Proof.
  unfold in_conversation, between.
  rewrite orb_true_iff, !andb_true_iff, !Z.eqb_eq. tauto.
Qed.

Lemma find_user_by_id_some (db : DB) (uid : Z) (u : User.t) :
  find_user_by_id db uid = Some u -> User.id u = uid /\ In u (users db).
Proof.
  unfold find_user_by_id. intros H. apply find_some in H.
  destruct H as [H1 H2]. apply Z.eqb_eq in H2. split; assumption.
Qed.

Lemma find_user_by_id_In (db : DB) (u : User.t) :
  In u (users db) -> find_user_by_id db (User.id u) <> None.
Proof.
  intros H E. unfold find_user_by_id in E.
  apply (find_none _ _ E) in H. rewrite Z.eqb_refl in H. discriminate.
Qed.

Lemma mark_read_effect (me : Z) (m : Message.t) :
  Message.id (mark_read me m) = Message.id m /\
  Message.content (mark_read me m) = Message.content m /\
  Message.sender_id (mark_read me m) = Message.sender_id m /\
  Message.receiver_id (mark_read me m) = Message.receiver_id m /\
  Message.created_at (mark_read me m) = Message.created_at m /\
  Message.is_read (mark_read me m)
  = (Message.is_read m || (Message.receiver_id m =? me)).
Proof.
  unfold mark_read.
  destruct (Message.receiver_id m =? me) eqn:Er;
    destruct (Message.is_read m) eqn:Ei; cbn;
    rewrite ?Er, ?Ei; repeat split.
Qed.

Lemma get_conversation_db (db : DB) (current_user : User.t) (user_id : Z) :
  snd (get_conversation db current_user user_id)
  = with_messages db
      (map (fun m => if in_conversation (User.id current_user) user_id m
                     then mark_read (User.id current_user) m else m)
           (messages db)).
Proof. reflexivity. Qed.

Lemma get_conversation_effect (db : DB) (current_user : User.t) (user_id : Z) :
  Forall2 (read_effect (User.id current_user) user_id) (messages db)
    (messages (snd (get_conversation db current_user user_id))).
Proof.
  rewrite get_conversation_db. cbn [messages with_messages].
  apply Forall2_map_same. intros m. unfold read_effect.
  destruct (in_conversation (User.id current_user) user_id m).
  - destruct (mark_read_effect (User.id current_user) m)
      as [E1 [E2 [E3 [E4 [E5 E6]]]]]. rewrite E6. cbn. tauto.
  - cbn. rewrite orb_false_r. tauto.
Qed.

(** A list comprehension whose body raises on every element gets through
    the empty list only. *)
Lemma traverse_raises {A B : Type} (f : A -> option B) (l : list A) :
  (forall x, f x = None) ->
  traverse f l = match l with [] => Some [] | _ :: _ => None end.
Proof.
  intros H. destruct l as [| x l]; [reflexivity |]. simpl. rewrite H.
  reflexivity.
Qed.



Lemma comment_to_dict_raises (db : DB) (c : Comment.t) :
  comment_to_dict db c = None.
Proof. reflexivity. Qed.

Lemma message_to_dict_raises (db : DB) (m : Message.t) :
  message_to_dict db m = None.
Proof. reflexivity. Qed.

Lemma sort_by_nil_iff {A : Type} (le : A -> A -> bool) (l : list A) :
  sort_by le l = [] <-> l = [].
Proof.
  split; intros H; [| subst l; reflexivity].
  destruct l as [| x l]; [reflexivity |].
  assert (Hx : In x (sort_by le (x :: l))) by (apply In_sort_by; left; reflexivity).
  rewrite H in Hx. destruct Hx.
Qed.

(** The answer of [get_conversation]: the empty list when nothing has passed
    between the two users, and otherwise no list at all. *)
Lemma get_conversation_answer (db : DB) (current_user : User.t) (user_id : Z) :
  fst (get_conversation db current_user user_id)
  = match filter (in_conversation (User.id current_user) user_id)
            (messages db) with
    | [] => Ok []
    | _ :: _ => internal_error
    end.
Proof.
  unfold get_conversation. cbn [fst].
  rewrite (traverse_raises _ _ (message_to_dict_raises _)).
  destruct (filter (in_conversation (User.id current_user) user_id)
              (messages db)) as [| m l] eqn:E.
  - reflexivity.
  - destruct (order_by_asc Message.created_at (m :: l)) as [| m' l'] eqn:Es.
    + apply sort_by_nil_iff in Es. discriminate.
    + reflexivity.
Qed.

(** C6: what [get_conversation], called by [me] about [other], does.
    - It stores the read flag on the rows of the conversation that [me]
      received and changes nothing else in the database: the side effect of
      the claim.
    - It does not return the messages: the marks are committed first, then
      [message.to_dict()] reads [self.sender] on the first selected message
      and raises.  The answer is the empty list when nothing has passed
      between the two users and 500 as soon as there is a message to return.
    And the scenario: [alice] writes "hi" to [bob], [bob] writes "yo" to
    [alice] (both rows are stored, both requests answered 500), [bob] reads
    the conversation: "hi" is stored as read and the read is answered 500,
    where the claim has the list ["hi"; "yo"]. *)
Theorem get_conversation_marks_then_raises :
  (forall (db : DB) (current_user : User.t) (user_id : Z),
      let me := User.id current_user in
      let r := get_conversation db current_user user_id in
      snd r = with_messages db (messages (snd r)) /\
      Forall2 (read_effect me user_id) (messages db) (messages (snd r)) /\
      (forall m, in_conversation me user_id m = true <-> between me user_id m) /\
      ((forall m, In m (messages db) -> ~ between me user_id m) ->
       fst r = Ok []) /\
      (forall m, In m (messages db) -> between me user_id m ->
                 fst r = internal_error)) /\
  (let s1 := send_message scenario_db alice 2 "hi" 6 in
   let s2 := send_message (snd s1) bob 1 "yo" 7 in
   let r := get_conversation (snd s2) bob 1 in
   fst s1 = internal_error /\ fst s2 = internal_error /\
   map (fun m => (Message.content m, Message.is_read m)) (messages (snd s2))
   = [("hi"%string, false); ("yo"%string, false)] /\
   fst r = internal_error /\
   map (fun m => (Message.content m, Message.is_read m)) (messages (snd r))
   = [("hi"%string, true); ("yo"%string, false)]).
Proof.
  split.
  - intros db current_user user_id. cbv zeta.
    split; [reflexivity |].
    split; [apply get_conversation_effect |].
    split; [intros m; apply in_conversation_between |].
    rewrite get_conversation_answer.
    destruct (filter (in_conversation (User.id current_user) user_id)
                (messages db)) as [| m0 l] eqn:E.
    + split; [reflexivity |]. intros m Hm Hb. exfalso.
      assert (Hin : In m (filter (in_conversation (User.id current_user)
                                    user_id) (messages db))).
      { apply filter_In. split; [exact Hm |].
        apply in_conversation_between. exact Hb. }
      rewrite E in Hin. destruct Hin.
    + split; [| reflexivity]. intros Hnone. exfalso.
      assert (Hin : In m0 (filter (in_conversation (User.id current_user)
                                     user_id) (messages db)))
        by (rewrite E; left; reflexivity).
      apply filter_In in Hin. destruct Hin as [Hin Hc].
      apply in_conversation_between in Hc. exact (Hnone m0 Hin Hc).
  - vm_compute. repeat split.
Qed.
(* ------------------------------------------------------------------ *)
(** ** The read flag *)

(** What one request does to the message table: nothing, one new unread
    message, or the marking of a conversation read. *)
Lemma handle_messages (env : Env) (n : nat) (db : DB) (ev : Event) :
  let ms' := messages (snd (handle env n db ev)) in
  ms' = messages db \/
  (exists m, ms' = messages db ++ [m] /\ Message.is_read m = false /\
             find_user_by_id db (Message.sender_id m) <> None /\
             find_user_by_id db (Message.receiver_id m) <> None) \/
  (exists subject current_user user_id,
      ev = Authenticated subject (GetConversation user_id) /\
      get_current_user db subject = Ok current_user /\
      ms' = messages (snd (get_conversation db current_user user_id))).
Proof.
  cbv zeta. destruct ev as [[|] | subject req].
  - open_handle. handler_cases; left; reflexivity.
  - open_handle. handler_cases; left; reflexivity.
  - unfold handle. destruct (get_current_user db subject) as [cu | c d] eqn:Ecu;
      [| left; reflexivity].
    destruct req;
      try (open_handle; cbv zeta; handler_cases; cbn [snd fst];
           left; reflexivity).
    + right. right. exists subject, cu, user_id.
      split; [reflexivity | split; [exact Ecu | reflexivity]].
    + unfold dispatch, answer, send_message.
      destruct (find_user_by_id db user_id) eqn:Eu; cbn [snd fst];
        [| left; reflexivity].
      right. left. eexists. split; [reflexivity |]. split; [reflexivity |].
      cbn [Message.sender_id Message.receiver_id]. split; [| congruence].
      unfold get_current_user in Ecu.
      destruct (find_user_by_username db subject) as [u |] eqn:Eu';
        [| discriminate].
      inversion Ecu. subst u.
      apply find_user_by_username_some in Eu'.
      apply find_user_by_id_In. tauto.
Qed.

Lemma Forall2_same {A : Type} (R : A -> A -> Prop) (l : list A) :
  (forall x, R x x) -> Forall2 R l l.
Proof. intros H. induction l; constructor; auto. Qed.

Lemma message_kept_same (db : DB) (ev : Event) (m : Message.t) :
  message_kept db ev m m.
Proof. unfold message_kept. repeat split; congruence. Qed.

Lemma read_effect_kept (db : DB) (subject : string) (current_user : User.t)
    (user_id : Z) (m m' : Message.t) :
  get_current_user db subject = Ok current_user ->
  read_effect (User.id current_user) user_id m m' ->
  message_kept db (Authenticated subject (GetConversation user_id)) m m'.
Proof.
  intros Hcu [E1 [E2 [E3 [E4 [E5 E6]]]]]. unfold message_kept.
  repeat split; try assumption.
  - intros H. rewrite E6, H. reflexivity.
  - intros H H'. rewrite E6, H in H'. cbn [orb] in H'.
    apply andb_true_iff in H'. destruct H' as [Hc Hr].
    apply Z.eqb_eq in Hr.
    exists subject, current_user, user_id. repeat split; try assumption.
    + symmetry. exact Hr.
    + unfold in_conversation in Hc. rewrite Hr in Hc.
      apply orb_true_iff in Hc. rewrite !andb_true_iff, !Z.eqb_eq in Hc.
      destruct Hc as [[Hs Hu] | [Hs _]]; congruence.
Qed.

(** One request, seen from the message table. *)
Lemma handle_keeps_messages (env : Env) (n : nat) (db : DB) (ev : Event) :
  exists old new,
    messages (snd (handle env n db ev)) = old ++ new /\
    Forall2 (message_kept db ev) (messages db) old /\
    Forall (fun m => Message.is_read m = false) new.
Proof.
  destruct (handle_messages env n db ev)
    as [E | [[m [E [Hm _]]] | [subject [cu [uid [Eev [Hcu E]]]]]]].
  - exists (messages db), []. rewrite E, app_nil_r.
    split; [reflexivity |]. split; [| constructor].
    apply Forall2_same. apply message_kept_same.
  - exists (messages db), [m]. rewrite E.
    split; [reflexivity |]. split; [| repeat constructor; exact Hm].
    apply Forall2_same. apply message_kept_same.
  - exists (messages (snd (get_conversation db cu uid))), [].
    rewrite E, app_nil_r. split; [reflexivity |]. split; [| constructor].
    subst ev. eapply Forall2_impl; [| apply get_conversation_effect].
    intros m m' H. eapply read_effect_kept; eassumption.
Qed.

Lemma Forall2_nth_error {A B : Type} (R : A -> B -> Prop) (l : list A)
    (l' : list B) (i : nat) (x : A) :
  Forall2 R l l' -> nth_error l i = Some x ->
  exists y, nth_error l' i = Some y /\ R x y.
Proof.
  intros H. revert i. induction H as [| a b l l' Hab Hl IH]; intros i Hi.
  - destruct i; discriminate.
  - destruct i as [| i]; cbn in *.
    + inversion Hi. subst. exists b. split; [reflexivity | exact Hab].
    + apply IH. exact Hi.
Qed.

(** Once read, read for good: along any run the message in a given row of
    the table keeps its identity and, if it was read, stays read. *)
Lemma run_keeps_read (env : Env) (evs : list Event) (w : World) (i : nat)
    (m : Message.t) :
  nth_error (messages (world_db w)) i = Some m ->
  exists m',
    nth_error (messages (world_db (run env evs w))) i = Some m' /\
    Message.id m' = Message.id m /\
    (Message.is_read m = true -> Message.is_read m' = true).
Proof.
  revert w m. induction evs as [| ev evs IH]; intros w m Hm.
  - exists m. repeat split; auto.
  - cbn [run fold_left].
    destruct (handle_keeps_messages env (served w) (world_db w) ev)
      as [old [new [E [Hold _]]]].
    destruct (Forall2_nth_error _ _ _ _ _ Hold Hm) as [m1 [Hm1 Hk]].
    assert (Hstep : nth_error (messages (world_db (step env w ev))) i = Some m1).
    { unfold step. cbn [world_db]. rewrite E.
      rewrite nth_error_app1; [exact Hm1 |].
      apply nth_error_Some. congruence. }
    destruct (IH (step env w ev) m1 Hstep) as [m' [Hm' [Hid Hread]]].
    exists m'. split; [exact Hm' |].
    destruct Hk as [K1 [_ [_ [_ [_ [K6 _]]]]]].
    split; [congruence | auto].
Qed.

(** C7: for every request the server can serve, the message table afterwards
    is the table before, row by row the same messages, followed by the
    messages the request created; no row goes from read to unread; a row goes
    from unread to read only when the request is the conversation read made
    by the row's receiver about its sender; every created message is unread.
    Hence along any run a message that is read stays read.  The message that
    [send_message] stores for an existing receiver is unread. *)
Theorem is_read_set_once_by_receiver :
  (forall (env : Env) (n : nat) (db : DB) (ev : Event),
      exists old new,
        messages (snd (handle env n db ev)) = old ++ new /\
        Forall2 (message_kept db ev) (messages db) old /\
        Forall (fun m => Message.is_read m = false) new) /\
  (forall (env : Env) (evs : list Event) (w : World) (i : nat) (m : Message.t),
      nth_error (messages (world_db w)) i = Some m ->
      exists m',
        nth_error (messages (world_db (run env evs w))) i = Some m' /\
        Message.id m' = Message.id m /\
        (Message.is_read m = true -> Message.is_read m' = true)) /\
  (forall (db : DB) (current_user : User.t) (user_id : Z) (content : string)
          (now : Z) (d : MessageDict),
      fst (send_message db current_user user_id content now) = Ok d ->
      md_is_read d = false /\
      exists m, messages (snd (send_message db current_user user_id content now))
                = messages db ++ [m] /\
                Message.content m = content /\
                Message.is_read m = false) /\
  (forall (db : DB) (current_user : User.t) (user_id : Z) (content : string)
          (now : Z),
      find_user_by_id db user_id <> None ->
      exists m, messages (snd (send_message db current_user user_id content now))
                = messages db ++ [m] /\
                Message.content m = content /\
                Message.sender_id m = User.id current_user /\
                Message.receiver_id m = user_id /\
                Message.is_read m = false).
Proof.
  split; [exact handle_keeps_messages |].
  split; [exact run_keeps_read |].
  split.
  - intros db cu uid content now d. unfold send_message.
    destruct (find_user_by_id db uid); cbn [fst snd]; [| discriminate].
    rewrite message_to_dict_raises. discriminate.
  - intros db cu uid content now Hu. unfold send_message.
    destruct (find_user_by_id db uid); [| congruence]. cbn [snd].
    eexists. split; [reflexivity |]. repeat split.
Qed.

(** A message of the scenario goes from unread to read when [bob], its
    receiver, reads the conversation, and not when [alice], its sender,
    does. *)
Lemma scenario_read_flag :
  let db1 := snd (send_message scenario_db alice 2 "hi" 6) in
  map Message.is_read (messages db1) = [false] /\
  map Message.is_read (messages (snd (get_conversation db1 alice 2))) = [false] /\
  map Message.is_read (messages (snd (get_conversation db1 bob 1))) = [true] /\
  map Message.is_read
    (messages (snd (get_conversation (snd (get_conversation db1 bob 1)) bob 1)))
  = [true].
Proof. vm_compute. repeat split. Qed.

(* ------------------------------------------------------------------ *)
(** ** Referential integrity of reachable databases *)

Lemma find_user_by_id_ids (db : DB) (uid : Z) :
  find_user_by_id db uid <> None <-> In uid (map User.id (users db)).
Proof.
  split.
  - intros H. destruct (find_user_by_id db uid) as [u |] eqn:E; [| congruence].
    apply find_user_by_id_some in E. destruct E as [<- Hu].
    apply in_map. exact Hu.
  - intros H. apply in_map_iff in H. destruct H as [u [<- Hu]].
    apply find_user_by_id_In. exact Hu.
Qed.

(** No request removes a user or changes a user's key. *)
Lemma handle_users (env : Env) (n : nat) (db : DB) (ev : Event) :
  exists extra,
    map User.id (users (snd (handle env n db ev)))
    = map User.id (users db) ++ extra.
Proof.
  assert (Hsame : exists extra,
             map User.id (users db) = map User.id (users db) ++ extra)
    by (exists []; rewrite app_nil_r; reflexivity).
  destruct ev as [[|] | subject req].
  - open_handle. handler_cases; exact Hsame.
  - open_handle. handler_cases; cbn [snd fst]; [exact Hsame |].
    cbn [users with_users]. rewrite map_app. eexists. reflexivity.
  - unfold handle. destruct (get_current_user db subject) as [cu | c d];
      [| exact Hsame].
    destruct req;
      try (open_handle; cbv zeta; handler_cases; cbn [snd fst]; exact Hsame).
    unfold dispatch, answer, update_user_profile. cbv zeta.
    destruct (negb (upload_written avatar)); cbn [snd fst]; [exact Hsame |].
    unfold update_user. cbn [users with_users]. exists [].
    rewrite app_nil_r, map_map. apply map_ext. intros u.
    destruct (User.id u =? User.id cu); reflexivity.
Qed.

(* ------------------------------------------------------------------ *)
(** ** Timestamps of posts *)

(** What request number [n] does to the post table: nothing, one new post
    stamped with the request's two readings, the removal of the rows with one
    id, or a rewrite that keeps [created_at] and the author and stamps
    [updated_at] with the request's first reading. *)
Lemma handle_posts (env : Env) (n : nat) (db : DB) (ev : Event) :
  let ps' := posts (snd (handle env n db ev)) in
  ps' = posts db \/
  (exists p, ps' = posts db ++ [p] /\
             Post.created_at p = utcnow env (2 * n) /\
             Post.updated_at p = utcnow env (2 * n + 1) /\
             find_user_by_id db (Post.author_id p) <> None) \/
  (exists pid, ps' = filter (fun p => negb (Post.id p =? pid)) (posts db)) \/
  (exists key f,
      ps' = map (fun p => if Post.id p =? key then f p else p) (posts db) /\
      forall p, Post.created_at (f p) = Post.created_at p /\
                Post.updated_at (f p) = utcnow env (2 * n) /\
                Post.author_id (f p) = Post.author_id p).
Proof.
  cbv zeta. destruct ev as [[|] | subject req].
  - open_handle. handler_cases; left; reflexivity.
  - open_handle. handler_cases; left; reflexivity.
  - unfold handle.
    destruct (get_current_user db subject) as [cu | c d] eqn:Ecu;
      [| left; reflexivity].
    destruct req;
      try (open_handle; cbv zeta; handler_cases; cbn [snd fst];
           left; reflexivity).
    + unfold dispatch, answer, create_post. cbv zeta.
      destruct (negb (upload_written media)); [left; reflexivity |].
      right. left. cbn [snd fst posts with_posts]. eexists.
      split; [reflexivity |]. split; [reflexivity |]. split; [reflexivity |].
      cbn [Post.author_id]. unfold get_current_user in Ecu.
      destruct (find_user_by_username db subject) as [u |] eqn:Eu;
        [| discriminate].
      inversion Ecu. subst u. apply find_user_by_username_some in Eu.
      apply find_user_by_id_In. tauto.
    + unfold dispatch, answer, update_post.
      destruct (find_post db post_id) as [post |]; [| left; reflexivity].
      destruct (negb (Post.author_id post =? User.id cu));
        [left; reflexivity |].
      destruct (negb (upload_written media)); [left; reflexivity |].
      right. right. right. cbv zeta. cbn [snd fst].
      unfold update_post_row. cbn [posts with_posts].
      eexists. eexists. split; [reflexivity |].
      intros p. split; [reflexivity |]. split; reflexivity.
    + unfold dispatch, answer, delete_post.
      destruct (find_post db post_id) as [post |]; [| left; reflexivity].
      destruct (negb (Post.author_id post =? User.id cu));
        [left; reflexivity |].
      right. right. left. exists (Post.id post). reflexivity.
Qed.

(** The invariant carried along a run: timestamps in order, and no post
    created later than the next reading of the clock. *)
Lemma step_timestamps (env : Env) (w : World) (ev : Event) :
  clock_monotone env ->
  Forall (fun p => timestamps_ordered p /\
                   Post.created_at p <= utcnow env (2 * served w))
         (posts (world_db w)) ->
  Forall (fun p => timestamps_ordered p /\
                   Post.created_at p <= utcnow env (2 * served (step env w ev)))
         (posts (world_db (step env w ev))).
Proof.
  intros Hclock Hinv. unfold step. cbn [world_db served].
  assert (Hnext : forall p,
             Post.created_at p <= utcnow env (2 * served w) ->
             Post.created_at p <= utcnow env (2 * S (served w))).
  { intros p Hp. eapply Z.le_trans; [exact Hp |]. apply Hclock. lia. }
  assert (Hold : Forall (fun p => timestamps_ordered p /\
                    Post.created_at p <= utcnow env (2 * S (served w)))
                  (posts (world_db w))).
  { eapply Forall_impl; [| exact Hinv]. cbv beta. intros p [H1 H2].
    split; [exact H1 | apply Hnext; exact H2]. }
  destruct (handle_posts env (served w) (world_db w) ev)
    as [E | [[p [E [Hc [Hu _]]]] | [[pid E] | [key [f [E Hf]]]]]];
    cbv zeta in E; rewrite E.
  - exact Hold.
  - apply Forall_app. split; [exact Hold |]. constructor; [| constructor].
    unfold timestamps_ordered. rewrite Hc, Hu.
    split; apply Hclock; lia.
  - rewrite Forall_forall in *. intros p Hp. apply filter_In in Hp.
    apply Hold. tauto.
  - rewrite Forall_forall in *. intros p' Hp'.
    apply in_map_iff in Hp'. destruct Hp' as [p [<- Hp]].
    destruct (Post.id p =? key); [| apply Hold; exact Hp].
    destruct (Hf p) as [Hc [Hu _]]. unfold timestamps_ordered.
    rewrite Hc, Hu. destruct (Hinv p Hp) as [_ H2].
    split; [exact H2 | apply Hnext; exact H2].
Qed.

Lemma run_timestamps (env : Env) (evs : list Event) (w : World) :
  clock_monotone env ->
  Forall (fun p => timestamps_ordered p /\
                   Post.created_at p <= utcnow env (2 * served w))
         (posts (world_db w)) ->
  Forall timestamps_ordered (posts (world_db (run env evs w))).
Proof.
  intros Hclock. revert w. induction evs as [| ev evs IH]; intros w Hinv.
  - cbn. eapply Forall_impl; [| exact Hinv]. cbv beta. tauto.
  - cbn [run fold_left]. apply (IH (step env w ev)).
    apply step_timestamps; assumption.
Qed.

(** A call of [update_post] that passes the existence and author checks and
    gets its media file written stores the reading it took as [updated_at]
    and keeps [created_at]; when the file is not written the request ends
    with the database as it was. *)
Lemma update_post_stamps (db : DB) (current_user : User.t) (post_id : Z)
    (post : Post.t) (title content category : option string)
    (media : option UploadFile) (uuid : string) (now : Z) :
  find_post db post_id = Some post ->
  Post.author_id post = User.id current_user ->
  let r := update_post db current_user post_id title content category media
                       uuid now in
  (upload_written media = true ->
   exists post', find_post (snd r) post_id = Some post' /\
                 Post.updated_at post' = now /\
                 Post.created_at post' = Post.created_at post) /\
  (upload_written media = false -> r = (internal_error, db)).
Proof.
  intros Hfind Hauthor. cbv zeta.
  destruct (find_post_id _ _ _ Hfind) as [Hid _].
  unfold update_post. rewrite Hfind, Hauthor, Z.eqb_refl. cbn [negb].
  destruct (upload_written media); cbn [negb fst snd];
    [| split; [discriminate | reflexivity]].
  split; [intros _ | discriminate].
  unfold find_post in *. unfold update_post_row. cbn [posts with_posts].
  rewrite Hid.
  induction (posts db) as [| p ps IH]; [discriminate |].
  cbn [find map] in *.
  destruct (Post.id p =? post_id) eqn:E.
  - inversion Hfind. subst p. cbn [Post.id]. rewrite E.
    eexists. split; [reflexivity |]. split; reflexivity.
  - rewrite E. apply IH. exact Hfind.
Qed.

(** C8, as stated, fails: the timestamps are readings of the wall clock, and
    the INSERT of a post takes one reading for [created_at] and another for
    [updated_at].  With a clock set back between the two, the server stores
    a post whose [updated_at] is before its [created_at]. *)
Lemma clock_set_back_stores_earlier_updated_at :
  let env := mkEnv (env_auth scenario_env) (fun n => 10 - Z.of_nat n)
                   (uuid4 scenario_env) in
  let db := world_db (run env scenario_events init_world) in
  reachable db /\
  map (fun p => (Post.created_at p, Post.updated_at p)) (posts db) = [(6, 5)] /\
  ~ Forall timestamps_ordered (posts db).
Proof.
  cbv zeta. split; [| split].
  - eexists. eexists. reflexivity.
  - reflexivity.
  - intros H. apply Forall_inv in H. unfold timestamps_ordered in H.
    vm_compute in H. apply H. reflexivity.
Qed.

(** C8, amended: with a clock that never runs backwards, every post of every
    database the server reaches has [created_at <= updated_at]; and a call
    of [update_post] that passes the existence and author checks and gets
    its media file, if any, written stores the reading of the clock it took
    as the post's [updated_at] and keeps [created_at].  When the file is not
    written the request ends before the commit and the database, the post's
    [updated_at] included, is as it was. *)
Theorem post_updated_at_not_before_created_at
    (env : Env) (evs : list Event) :
  clock_monotone env ->
  Forall timestamps_ordered (posts (world_db (run env evs init_world))) /\
  (forall (db : DB) (current_user : User.t) (post_id : Z) (post : Post.t)
          (title content category : option string)
          (media : option UploadFile) (uuid : string) (now : Z),
      find_post db post_id = Some post ->
      Post.author_id post = User.id current_user ->
      let r := update_post db current_user post_id title content category
                           media uuid now in
      (upload_written media = true ->
       exists post', find_post (snd r) post_id = Some post' /\
                     Post.updated_at post' = now /\
                     Post.created_at post' = Post.created_at post) /\
      (upload_written media = false -> r = (internal_error, db))).
Proof.
  intros Hclock. split.
  - apply run_timestamps; [exact Hclock | constructor].
  - intros. apply update_post_stamps; assumption.
Qed.

Lemma post_updated_at_not_before_created_at_witness :
  let evs := scenario_events
             ++ [Authenticated "alice"
                   (UpdatePost 1 (Some "Hello again"%string) None None None)] in
  Forall timestamps_ordered (posts (world_db (run scenario_env evs init_world)))
  /\
  map (fun p => (Post.title p, Post.created_at p, Post.updated_at p))
      (posts (world_db (run scenario_env evs init_world)))
  = [("Hello again"%string, 4, 6)].
Proof.
  split.
  - apply (post_updated_at_not_before_created_at scenario_env).
    intros i j Hij. cbn. lia.
  - reflexivity.
Defined.
(* ------------------------------------------------------------------ *)
(** ** [LIKE] patterns and substrings *)

Local Open Scope string_scope.

Lemma lower_app (a b : string) : lower (a ++ b) = lower a ++ lower b.
Proof. induction a as [| c a IH]; simpl; [reflexivity | rewrite IH; reflexivity]. Qed.

Lemma lower_ascii_wildcard (c : ascii) :
  Ascii.eqb (lower_ascii c) "%" = Ascii.eqb c "%" /\
  Ascii.eqb (lower_ascii c) "_" = Ascii.eqb c "_".
Proof.
  destruct c as [[] [] [] [] [] [] [] []]; split; reflexivity.
Qed.

Lemma has_wildcard_lower (q : string) : has_wildcard (lower q) = has_wildcard q.
Proof.
  induction q as [| c q IH]; simpl; [reflexivity |].
  destruct (lower_ascii_wildcard c) as [-> ->]. rewrite IH. reflexivity.
Qed.

Lemma prefixb_app (p s : string) :
  prefixb p s = true <-> exists rest, s = p ++ rest.
Proof.
  revert s. induction p as [| c p IH]; intros s; simpl.
  - split; [intros _; exists s; reflexivity | reflexivity].
  - destruct s as [| d s].
    + split; [discriminate | intros [rest H]; discriminate].
    + rewrite andb_true_iff, Ascii.eqb_eq, IH. split.
      * intros [-> [rest ->]]. exists rest. reflexivity.
      * intros [rest H]. inversion H. split; [reflexivity |].
        exists rest. reflexivity.
Qed.

Lemma substringb_app (q s : string) :
  substringb q s = true <-> exists before after, s = before ++ q ++ after.
Proof.
  induction s as [| d s IH]; simpl.
  - rewrite orb_false_r, prefixb_app. split.
    + intros [rest H]. exists "", rest. exact H.
    + intros [before [after H]]. destruct before; [| discriminate].
      exists after. exact H.
  - rewrite orb_true_iff, IH, prefixb_app. split.
    + intros [[rest H] | [before [after H]]].
      * exists "", rest. exact H.
      * exists (String d before), after. simpl. rewrite H. reflexivity.
    + intros [before [after H]]. destruct before as [| c before].
      * left. exists after. exact H.
      * right. simpl in H. inversion H. exists before, after. reflexivity.
Qed.

Lemma lower_ascii_code (c : ascii) :
  nat_of_ascii (lower_ascii c)
  = (if (Nat.leb 65 (nat_of_ascii c) && Nat.leb (nat_of_ascii c) 90)%bool
     then nat_of_ascii c + 32 else nat_of_ascii c)%nat.
Proof.
  unfold lower_ascii. pose proof (nat_ascii_bounded c) as Hb.
  destruct (Nat.leb 65 (nat_of_ascii c) && Nat.leb (nat_of_ascii c) 90)%bool
    eqn:E; [| reflexivity].
  apply andb_true_iff in E. destruct E as [E1 E2].
  apply Nat.leb_le in E1, E2. apply nat_ascii_embedding. lia.
Qed.

Lemma nat_of_ascii_inj (c d : ascii) :
  nat_of_ascii c = nat_of_ascii d -> c = d.
Proof.
  intros H. rewrite <- (ascii_nat_embedding c), <- (ascii_nat_embedding d), H.
  reflexivity.
Qed.

(** Two characters are the same letter exactly when SQL [lower] sends them
    to the same character. *)
Lemma same_letter_lower (c d : ascii) :
  same_letter c d <-> lower_ascii c = lower_ascii d.
Proof.
  unfold same_letter. cbv zeta. split.
  - intros H. apply nat_of_ascii_inj. rewrite !lower_ascii_code.
    destruct (Nat.leb 65 (nat_of_ascii c)) eqn:E1;
      destruct (Nat.leb (nat_of_ascii c) 90) eqn:E2;
      destruct (Nat.leb 65 (nat_of_ascii d)) eqn:E3;
      destruct (Nat.leb (nat_of_ascii d) 90) eqn:E4; cbn [andb];
      rewrite ?Nat.leb_le, ?Nat.leb_gt in *; lia.
  - intros H. apply (f_equal nat_of_ascii) in H.
    rewrite !lower_ascii_code in H.
    destruct (Nat.leb 65 (nat_of_ascii c)) eqn:E1;
      destruct (Nat.leb (nat_of_ascii c) 90) eqn:E2;
      destruct (Nat.leb 65 (nat_of_ascii d)) eqn:E3;
      destruct (Nat.leb (nat_of_ascii d) 90) eqn:E4; cbn [andb] in H;
      rewrite ?Nat.leb_le, ?Nat.leb_gt in *; lia.
Qed.

Lemma same_text_lower (s t : string) :
  same_text s t <-> lower s = lower t.
Proof.
  split.
  - induction 1 as [| c d s t Hcd _ IH]; [reflexivity |].
    cbn [lower]. apply same_letter_lower in Hcd. rewrite Hcd, IH. reflexivity.
  - revert t. induction s as [| c s IH]; intros [| d t] H;
      try discriminate; [constructor |].
    cbn [lower] in H. inversion H.
    constructor; [apply same_letter_lower; assumption | apply IH; assumption].
Qed.

(** A text whose lower-case form splits in two splits in two itself. *)
Lemma lower_app_inv (s x y : string) :
  lower s = x ++ y ->
  exists s1 s2, s = s1 ++ s2 /\ lower s1 = x /\ lower s2 = y.
Proof.
  revert s. induction x as [| c x IH]; intros s H.
  - exists "", s. repeat split. exact H.
  - destruct s as [| d s]; [discriminate |]. cbn [lower] in H.
    change (String c x ++ y) with (String c (x ++ y)) in H. inversion H.
    destruct (IH s H2) as [s1 [s2 [-> [E1 E2]]]].
    exists (String d s1), s2. cbn [lower]. rewrite E1.
    repeat split. exact E2.
Qed.

Lemma contains_ci_lower (q s : string) :
  contains_ci q s <-> exists before after, lower s = before ++ lower q ++ after.
Proof.
  unfold contains_ci. split.
  - intros [before [found [after [-> H]]]]. apply same_text_lower in H.
    exists (lower before), (lower after). rewrite !lower_app, H. reflexivity.
  - intros [before [after H]].
    apply lower_app_inv in H. destruct H as [s1 [s23 [-> [_ H]]]].
    apply lower_app_inv in H. destruct H as [s2 [s3 [-> [H _]]]].
    exists s1, s2, s3. split; [reflexivity |].
    apply same_text_lower. symmetry. exact H.
Qed.

Lemma contains_cib_spec (q s : string) :
  contains_cib q s = true <-> contains_ci q s.
Proof.
  rewrite contains_ci_lower. unfold contains_cib. apply substringb_app.
Qed.

(** One step of the scan that [%] starts. *)
Lemma like_percent (pat s : string) :
  like (String "%" pat) s
  = (like pat s
     || match s with
        | EmptyString => false
        | String _ s' => like (String "%" pat) s'
        end)%bool.
Proof. destruct s; reflexivity. Qed.

Lemma like_percent_app (pat s : string) :
  like (String "%" pat) s = true
  <-> exists before after, s = before ++ after /\ like pat after = true.
Proof.
  induction s as [| d s IH]; rewrite like_percent.
  - rewrite orb_false_r. split.
    + intros H. exists "", "". split; [reflexivity | exact H].
    + intros [before [after [H Hl]]].
      destruct before; [| discriminate]. simpl in H. subst after. exact Hl.
  - rewrite orb_true_iff, IH. split.
    + intros [H | [before [after [H Hl]]]].
      * exists "", (String d s). split; [reflexivity | exact H].
      * exists (String d before), after. simpl. rewrite H.
        split; [reflexivity | exact Hl].
    + intros [before [after [H Hl]]]. destruct before as [| c before].
      * left. simpl in H. rewrite H. exact Hl.
      * right. simpl in H. inversion H. exists before, after.
        split; [reflexivity | exact Hl].
Qed.

Lemma like_percent_only (s : string) : like "%" s = true.
Proof.
  apply like_percent_app. exists s, "". split; [| reflexivity].
  induction s as [| c s IH]; simpl; [reflexivity |]. rewrite <- IH.
  reflexivity.
Qed.

(** A pattern that starts with wildcard-free text matches the strings that
    start with that text and go on to match the rest. *)
Lemma like_literal_app (p rest s : string) :
  has_wildcard p = false ->
  like (p ++ rest) s = true
  <-> exists s', s = p ++ s' /\ like rest s' = true.
Proof.
  revert s. induction p as [| c p IH]; intros s Hp.
  - simpl. split.
    + intros H. exists s. split; [reflexivity | exact H].
    + intros [s' [-> H]]. exact H.
  - simpl in Hp. apply orb_false_iff in Hp. destruct Hp as [Hc Hp].
    apply orb_false_iff in Hc. destruct Hc as [Hc1 Hc2].
    change (String c p ++ rest) with (String c (p ++ rest)).
    cbn [like]. rewrite Hc1, Hc2.
    destruct s as [| d s].
    + split; [discriminate | intros [s' [H _]]; discriminate].
    + rewrite andb_true_iff, Ascii.eqb_eq, (IH s Hp). split.
      * intros [-> [s' [-> H]]]. exists s'. split; [reflexivity | exact H].
      * intros [s' [H Hl]]. inversion H. split; [reflexivity |].
        exists s'. split; [reflexivity | exact Hl].
Qed.

(** For a query without wildcards, [ilike] with the pattern [%q%] is the
    case-insensitive substring test. *)
Lemma ilike_contains (column q : string) :
  has_wildcard q = false ->
  ilike column (contains_pattern q) = contains_cib q column.
Proof.
  intros Hq. apply eq_true_iff_eq.
  unfold ilike, contains_pattern, contains_cib.
  change ("%" ++ q ++ "%") with (String "%" (q ++ "%")).
  cbn [lower]. change (lower_ascii "%") with "%"%char.
  rewrite lower_app. change (lower "%") with "%".
  rewrite like_percent_app, substringb_app. split.
  - intros [before [after [E H]]].
    apply like_literal_app in H; [| rewrite has_wildcard_lower; exact Hq].
    destruct H as [s' [-> _]]. exists before, s'. exact E.
  - intros [before [after E]]. exists before, (lower q ++ after).
    split; [exact E |].
    apply like_literal_app; [rewrite has_wildcard_lower; exact Hq |].
    exists after. split; [reflexivity | apply like_percent_only].
Qed.

Local Close Scope string_scope.

(* ------------------------------------------------------------------ *)
(** ** Search *)

(** The scenario: the query "hel" selects the post titled "Hello"; the
    answer is not built, [post.to_dict] raises on the selected row. *)
Lemma scenario_search_hel :
  map Post.title (search_posts_rows scenario_db "hel" 0 20) = ["Hello"%string] /\
  fst (search scenario_db bob "hel" "posts" 0 20) = internal_error.
Proof. split; reflexivity. Qed.

(** C9, as stated, fails: with twenty-one posts titled "Hello" the search for
    "hel" with the default page (skip 0, limit 20) answers twenty of them;
    the oldest contains the query and is not in the answer. *)
Lemma search_default_page_misses_match :
  let oldest := Post.mk 1 "Hello" "First post" "blog" "sports" "" 1 2 3 in
  In oldest (posts crowded_db) /\
  contains_ci "hel" (Post.title oldest) /\
  List.length (search_posts_rows crowded_db "hel" 0 20) = 20%nat /\
  ~ In oldest (search_posts_rows crowded_db "hel" 0 20).
Proof.
  cbv zeta. split; [vm_compute; left; reflexivity |].
  split; [apply contains_cib_spec; reflexivity |].
  split; [vm_compute; reflexivity |].
  assert (Hids : forallb (fun p => negb (Post.id p =? 1))
                   (search_posts_rows crowded_db "hel" 0 20) = true)
    by (vm_compute; reflexivity).
  intros H. rewrite forallb_forall in Hids. apply Hids in H.
  discriminate H.
Qed.

(** A query made of a wildcard is not searched for as text: "_" selects the
    post titled "Hello" although neither its title nor its body holds an
    underscore. *)
Lemma search_wildcard_query :
  map Post.title (search_posts_rows scenario_db "_" 0 20) = ["Hello"%string] /\
  contains_cib "_" "Hello" = false /\
  contains_cib "_" "First post" = false.
Proof. repeat split. Qed.

Lemma matches_query_spec (q : string) (p : Post.t) :
  matches_query q p = true
  <-> contains_ci q (Post.title p) \/ contains_ci q (Post.content p).
Proof.
  unfold matches_query. rewrite orb_true_iff, !contains_cib_spec. tauto.
Qed.

(** For a query without wildcards the search selects the posts that match
    it, newest first, before the page is cut. *)
Lemma search_posts_rows_matches (db : DB) (q : string) (skip limit : Z) :
  has_wildcard q = false ->
  search_posts_rows db q skip limit
  = paginate skip limit
      (order_by_desc Post.created_at (filter (matches_query q) (posts db))).
Proof.
  intros Hq. unfold search_posts_rows. f_equal. f_equal.
  apply filter_ext. intros p. unfold matches_query.
  rewrite !(ilike_contains _ q Hq). reflexivity.
Qed.

(** With a skip and a limit that are not negative, the page is the run of
    [limit] rows after the first [skip] rows, as far as the list goes. *)
Lemma paginate_window {A : Type} (skip limit : Z) (l : list A) :
  0 <= skip -> 0 <= limit ->
  exists before after,
    l = before ++ paginate skip limit l ++ after /\
    List.length before = Nat.min (Z.to_nat skip) (List.length l) /\
    List.length (paginate skip limit l)
    = Nat.min (Z.to_nat limit) (List.length l - Z.to_nat skip).
Proof.
  intros Hs Hl. unfold paginate.
  replace (limit <? 0) with false by (symmetry; apply Z.ltb_ge; exact Hl).
  exists (firstn (Z.to_nat skip) l),
         (skipn (Z.to_nat limit) (skipn (Z.to_nat skip) l)).
  split; [rewrite firstn_skipn, firstn_skipn; reflexivity |].
  split; [apply length_firstn |].
  rewrite length_firstn, length_skipn. reflexivity.
Qed.

(** C9, amended: for a query without the wildcards [%] and [_] and a skip
    and a limit that are not negative (0 and 20 unless the request says
    otherwise), the rows the post search selects are one page of the posts
    whose title or body contains the query as a case-insensitive substring:
    listed newest [created_at] first, these posts are the [skip] rows before
    the page, the page, and the rows after it, and the page has [limit] rows
    or as many as are left after the first [skip]. *)
Theorem search_posts_page_of_matches
    (db : DB) (q : string) (skip limit : Z) :
  has_wildcard q = false ->
  0 <= skip ->
  0 <= limit ->
  exists all before after,
    Permutation all (filter (matches_query q) (posts db)) /\
    (forall p, matches_query q p = true
               <-> contains_ci q (Post.title p)
                   \/ contains_ci q (Post.content p)) /\
    StronglySorted (fun a b => Post.created_at b <= Post.created_at a) all /\
    all = before ++ search_posts_rows db q skip limit ++ after /\
    List.length before = Nat.min (Z.to_nat skip) (List.length all) /\
    List.length (search_posts_rows db q skip limit)
    = Nat.min (Z.to_nat limit) (List.length all - Z.to_nat skip).
Proof.
  intros Hq Hs Hl.
  set (all := order_by_desc Post.created_at
                (filter (matches_query q) (posts db))).
  destruct (paginate_window skip limit all Hs Hl)
    as [before [after [E [Hb Hp]]]].
  exists all, before, after.
  rewrite (search_posts_rows_matches db q skip limit Hq). fold all.
  split; [apply Permutation_sym, order_by_desc_perm |].
  split; [intros p; apply matches_query_spec |].
  split; [apply order_by_desc_sorted |].
  split; [exact E |]. split; [exact Hb | exact Hp].
Qed.

Lemma search_posts_page_of_matches_witness :
  (exists all before after,
      Permutation all (filter (matches_query "hel") (posts crowded_db)) /\
      (forall p, matches_query "hel" p = true
                 <-> contains_ci "hel" (Post.title p)
                     \/ contains_ci "hel" (Post.content p)) /\
      StronglySorted (fun a b => Post.created_at b <= Post.created_at a) all /\
      all = before ++ search_posts_rows crowded_db "hel" 5 10 ++ after /\
      List.length before = Nat.min (Z.to_nat 5) (List.length all) /\
      List.length (search_posts_rows crowded_db "hel" 5 10)
      = Nat.min (Z.to_nat 10) (List.length all - Z.to_nat 5)) /\
  List.length (filter (matches_query "hel") (posts crowded_db)) = 21%nat /\
  map Post.id (search_posts_rows crowded_db "hel" 5 10)
  = [16; 15; 14; 13; 12; 11; 10; 9; 8; 7].
Proof.
  split; [| split; vm_compute; reflexivity].
  apply (search_posts_page_of_matches crowded_db "hel" 5 10).
  - reflexivity.
  - lia.
  - lia.
Defined.
(* ------------------------------------------------------------------ *)
(** ** Keys of users and self-follows *)

Lemma next_id_fresh (ids : list Z) : ~ In (next_id ids) ids.
Proof.
  assert (H : forall x, In x ids -> x <= fold_right Z.max 0 ids).
  { induction ids as [| y ids IH]; simpl; intros x Hx; [destruct Hx |].
    destruct Hx as [-> | Hx]; [lia |]. specialize (IH x Hx). lia. }
  intros Hin. apply H in Hin. unfold next_id in Hin. lia.
Qed.

(** What one request does to the keys of the user table: nothing, or one
    new key, the next one. *)
Lemma handle_user_ids (env : Env) (n : nat) (db : DB) (ev : Event) :
  let ids := map User.id (users db) in
  let ids' := map User.id (users (snd (handle env n db ev))) in
  ids' = ids \/ ids' = ids ++ [next_id ids].
Proof.
  cbv zeta. destruct ev as [[|] | subject req].
  - open_handle. handler_cases; left; reflexivity.
  - open_handle. handler_cases; cbn [snd fst]; [left; reflexivity |].
    right. cbn [users with_users]. rewrite map_app. reflexivity.
  - unfold handle. destruct (get_current_user db subject) as [cu | c d];
      [| left; reflexivity].
    destruct req;
      try (open_handle; cbv zeta; handler_cases; cbn [snd fst];
           left; reflexivity).
    left. unfold dispatch, answer, update_user_profile. cbv zeta.
    destruct (negb (upload_written avatar)); cbn [snd fst]; [reflexivity |].
    unfold update_user. cbn [users with_users].
    rewrite map_map. apply map_ext. intros u.
    destruct (User.id u =? User.id cu); reflexivity.
Qed.

Lemma unique_key_row (db : DB) (u v : User.t) :
  user_ids_unique db -> In u (users db) -> In v (users db) ->
  User.id u = User.id v -> u = v.
Proof.
  unfold user_ids_unique. induction (users db) as [| w ws IH]; simpl;
    intros Hnd Hu Hv E; [destruct Hu |].
  inversion Hnd as [| ? ? Hw Hws]; subst.
  destruct Hu as [-> | Hu], Hv as [-> | Hv].
  - reflexivity.
  - exfalso. apply Hw. rewrite E. apply in_map. exact Hv.
  - exfalso. apply Hw. rewrite <- E. apply in_map. exact Hu.
  - apply IH; assumption.
Qed.

(** The rows of the follow table after a request: the rows before, or the
    row that joins two stored users with different usernames. *)
Lemma handle_follow_rows (env : Env) (n : nat) (db : DB) (ev : Event)
    (e : Z * Z) :
  In e (user_followers (snd (handle env n db ev))) ->
  In e (user_followers db) \/
  exists u v, In u (users db) /\ In v (users db) /\
              User.username u <> User.username v /\
              e = (User.id u, User.id v).
Proof.
  destruct ev as [[|] | subject req].
  - open_handle. handler_cases; intros H; left; exact H.
  - open_handle. handler_cases; intros H; left; exact H.
  - unfold handle.
    destruct (get_current_user db subject) as [cu | c d] eqn:Ecu;
      [| intros H; left; exact H].
    destruct req;
      try (open_handle; cbv zeta; handler_cases; cbn [snd fst];
           intros H; left; exact H).
    + unfold dispatch, answer, follow_user.
      destruct (String.eqb username (User.username cu)) eqn:Ename;
        [intros H; left; exact H |].
      destruct (find_user_by_username db username) as [target |] eqn:Et;
        [| intros H; left; exact H].
      cbn [snd fst].
      destruct (negb (mem (User.id target) (following db (User.id cu))));
        [| intros H; left; exact H].
      cbn [user_followers with_user_followers]. intros H.
      apply in_app_or in H. destruct H as [H | [<- | []]];
        [left; exact H |].
      right. exists cu, target.
      unfold get_current_user in Ecu.
      destruct (find_user_by_username db subject) as [u |] eqn:Eu;
        [| discriminate].
      inversion Ecu. subst u.
      apply find_user_by_username_some in Eu.
      apply find_user_by_username_some in Et.
      apply String.eqb_neq in Ename.
      destruct Eu as [_ Hcu]. destruct Et as [Ht Htarget].
      repeat split; try assumption. congruence.
    + unfold dispatch, answer, unfollow_user.
      destruct (find_user_by_username db username) as [target |];
        [| intros H; left; exact H].
      cbn [snd fst].
      destruct (mem (User.id target) (following db (User.id cu)));
        [| intros H; left; exact H].
      cbn [user_followers with_user_followers]. intros H. left.
      eapply In_remove_first. exact H.
Qed.

(** In every database the server reaches, user keys are unique and nobody
    follows themself. *)
Lemma reachable_no_self_follow (db : DB) :
  reachable db -> user_ids_unique db /\ no_self_follow db.
Proof.
  revert db.
  apply (reachable_ind (fun db => user_ids_unique db /\ no_self_follow db)).
  - split; [constructor | intros e []].
  - intros env n db ev [Hids Hself]. split.
    + unfold user_ids_unique in *.
      destruct (handle_user_ids env n db ev) as [E | E]; cbv zeta in E;
        rewrite E; [exact Hids |].
      apply NoDup_app_new; [exact Hids | apply next_id_fresh].
    + intros e He. apply handle_follow_rows in He.
      destruct He as [He | [u [v [Hu [Hv [Hne ->]]]]]];
        [apply Hself; exact He |].
      cbn [fst snd]. intros E. apply Hne. f_equal.
      eapply unique_key_row; eassumption.
Qed.

(* ------------------------------------------------------------------ *)
(** ** Every request is an elementary change *)

Lemma get_current_user_In (db : DB) (subject : string) (u : User.t) :
  get_current_user db subject = Ok u ->
  In u (users db) /\ User.username u = subject.
Proof.
  unfold get_current_user.
  destruct (find_user_by_username db subject) as [v |] eqn:E; [| discriminate].
  intros H. inversion H. subst v.
  apply find_user_by_username_some in E. tauto.
Qed.

Lemma handle_effect (env : Env) (n : nat) (db : DB) (ev : Event) :
  effect db (snd (handle env n db ev)).
Proof.
  destruct ev as [[u p | e u f p] | subject req].
  - cbn [handle dispatch_public]. unfold answer, login_for_access_token.
    destruct (authenticate_user (env_auth env) db u p); apply eff_none.
  - cbn [handle dispatch_public]. unfold answer, register_user.
    match goal with
    | |- context [find ?g (users db)] => destruct (find g (users db)) eqn:E
    end; cbn [snd fst]; [apply eff_none |].
    apply eff_add_user; [reflexivity |].
    intros v Hv. apply (find_none _ _ E) in Hv. cbn in Hv.
    apply orb_false_iff in Hv. destruct Hv as [H1 H2].
    apply String.eqb_neq in H1. apply String.eqb_neq in H2.
    cbn [User.email User.username]. split; assumption.
  - unfold handle.
    destruct (get_current_user db subject) as [cu | c d] eqn:Ecu;
      [| apply eff_none].
    apply get_current_user_In in Ecu. destruct Ecu as [Hcu Hname].
    destruct req; cbn [dispatch]; unfold answer.
    + apply eff_none.
    + unfold update_user_profile. cbv zeta.
      destruct (negb (upload_written avatar)); cbn [snd fst];
        [apply eff_none |].
      apply eff_rewrite_user. intros u. cbn. repeat split.
    + unfold get_user_profile.
      destruct (find_user_by_username db username); apply eff_none.
    + unfold follow_user.
      destruct (String.eqb username (User.username cu)) eqn:Ename;
        [apply eff_none |].
      destruct (find_user_by_username db username) as [target |] eqn:Et;
        [| apply eff_none].
      cbn [snd fst].
      destruct (mem (User.id target) (following db (User.id cu))) eqn:Em;
        cbn [negb]; [apply eff_none |].
      apply find_user_by_username_some in Et. destruct Et as [Et Htarget].
      apply String.eqb_neq in Ename.
      apply eff_add_follow; try assumption.
      * congruence.
      * rewrite <- In_following. apply mem_false_In. exact Em.
    + unfold unfollow_user.
      destruct (find_user_by_username db username) as [target |];
        [| apply eff_none].
      cbn [snd fst].
      destruct (mem (User.id target) (following db (User.id cu)));
        [apply eff_remove_follow | apply eff_none].
    + apply eff_none.
    + unfold create_post. cbv zeta.
      destruct (negb (upload_written media)); cbn [snd fst];
        [apply eff_none |].
      apply eff_add_post; [reflexivity |].
      exists cu. split; [exact Hcu | reflexivity].
    + unfold get_post. destruct (find_post db post_id); apply eff_none.
    + unfold update_post.
      destruct (find_post db post_id) as [post |]; [| apply eff_none].
      destruct (negb (Post.author_id post =? User.id cu)); [apply eff_none |].
      destruct (negb (upload_written media)); [apply eff_none |].
      cbv zeta. cbn [snd fst]. apply eff_rewrite_post.
      intros q. cbn. repeat split.
    + unfold delete_post.
      destruct (find_post db post_id) as [post |]; [| apply eff_none].
      destruct (negb (Post.author_id post =? User.id cu)); [apply eff_none |].
      cbn [snd fst]. apply eff_delete_post.
    + unfold get_user_posts.
      destruct (find_user_by_username db username); apply eff_none.
    + unfold like_post.
      destruct (find_post db post_id) as [post |]; apply eff_none.
    + unfold unlike_post.
      destruct (find_post db post_id) as [post |]; apply eff_none.
    + unfold save_post.
      destruct (find_post db post_id) as [post |]; apply eff_none.
    + unfold unsave_post.
      destruct (find_post db post_id) as [post |]; apply eff_none.
    + unfold get_post_comments.
      destruct (find_post db post_id); apply eff_none.
    + unfold create_comment.
      destruct (find_post db post_id) as [post |] eqn:Ep; [| apply eff_none].
      cbn [snd fst]. apply find_post_id in Ep. destruct Ep as [Hid Hpost].
      apply eff_add_comment; [reflexivity | |].
      * exists cu. split; [exact Hcu | reflexivity].
      * exists post. split; [exact Hpost |]. cbn. rewrite Hid. reflexivity.
    + apply eff_none.
    + apply eff_mark_read.
    + unfold send_message.
      destruct (find_user_by_id db user_id) as [r |] eqn:Er; [| apply eff_none].
      cbn [snd fst]. apply find_user_by_id_some in Er.
      destruct Er as [Hid Hr].
      apply eff_add_message; [reflexivity | reflexivity | |].
      * exists cu. split; [exact Hcu | reflexivity].
      * exists r. split; [exact Hr |]. cbn. symmetry. exact Hid.
    + unfold search. destruct (String.eqb search_type "users");
        [apply eff_none |].
      match goal with
      | |- context [traverse ?f ?l] => destruct (traverse f l)
      end; apply eff_none.
Qed.

(* ------------------------------------------------------------------ *)
(** ** What the elementary changes keep *)

Lemma map_rewrite_same {A B : Type} (g : A -> B) (c : A -> bool)
    (f : A -> A) (l : list A) :
  (forall x, g (f x) = g x) ->
  map g (map (fun x => if c x then f x else x) l) = map g l.
Proof.
  intros H. rewrite map_map. apply map_ext. intros x.
  destruct (c x); [apply H | reflexivity].
Qed.

Lemma next_id_positive (ids : list Z) : 1 <= next_id ids.
Proof.
  unfold next_id. assert (0 <= fold_right Z.max 0 ids); [| lia].
  induction ids as [| x ids IH]; simpl; lia.
Qed.

Lemma NoDup_map_filter {A B : Type} (g : A -> B) (c : A -> bool)
    (l : list A) :
  NoDup (map g l) -> NoDup (map g (filter c l)).
Proof.
  induction l as [| x l IH]; simpl; intros H; [constructor |].
  inversion H as [| ? ? Hx Hl]; subst.
  destruct (c x); [| apply IH; exact Hl].
  simpl. constructor; [| apply IH; exact Hl].
  intros Hin. apply Hx. apply in_map_iff in Hin.
  destruct Hin as [y [Ey Hy]]. apply filter_In in Hy.
  apply in_map_iff. exists y. tauto.
Qed.

Lemma NoDup_filter_rows {A : Type} (c : A -> bool) (l : list A) :
  NoDup l -> NoDup (filter c l).
Proof.
  intros H. rewrite <- (map_id (filter c l)). apply NoDup_map_filter.
  rewrite map_id. exact H.
Qed.

Lemma map_map_id_comments (pid : Z) (cs : list Comment.t) :
  map Comment.id
    (map (fun c =>
            match Comment.post_id c with
            | Some q =>
                if q =? pid
                then Comment.mk (Comment.id c) (Comment.content c)
                                (Comment.author_id c) None
                                (Comment.created_at c)
                else c
            | None => c
            end) cs)
  = map Comment.id cs.
Proof.
  rewrite map_map. apply map_ext. intros c.
  destruct (Comment.post_id c) as [q |]; [| reflexivity].
  destruct (q =? pid); reflexivity.
Qed.

Lemma effect_keys_unique (db db' : DB) :
  keys_unique db -> effect db db' -> keys_unique db'.
Proof.
  intros [Hu [Hp [Hc Hm]]] He. unfold keys_unique.
  destruct He; cbn [users posts comments messages with_users with_posts
                    with_comments with_messages with_post_likes
                    with_post_saves with_user_followers update_user
                    update_post_row session_delete_post];
    repeat split; try assumption.
  - rewrite map_app. cbn [map]. rewrite H.
    apply NoDup_app_new; [exact Hu | apply next_id_fresh].
  - rewrite map_rewrite_same; [exact Hu | intros u; apply H].
  - rewrite map_app. cbn [map]. rewrite H.
    apply NoDup_app_new; [exact Hp | apply next_id_fresh].
  - rewrite map_rewrite_same; [exact Hp | intros p; apply H].
  - apply NoDup_map_filter. exact Hp.
  - rewrite map_map_id_comments. exact Hc.
  - rewrite map_app. cbn [map]. rewrite H.
    apply NoDup_app_new; [exact Hc | apply next_id_fresh].
  - rewrite map_app. cbn [map]. rewrite H.
    apply NoDup_app_new; [exact Hm | apply next_id_fresh].
  - rewrite map_rewrite_same; [exact Hm |].
    intros m. apply mark_read_effect.
Qed.

Lemma effect_keys_positive (db db' : DB) :
  keys_positive db -> effect db db' -> keys_positive db'.
Proof.
  intros [Hu [Hp [Hc Hm]]] He. unfold keys_positive.
  destruct He; cbn [users posts comments messages with_users with_posts
                    with_comments with_messages with_post_likes
                    with_post_saves with_user_followers update_user
                    update_post_row session_delete_post];
    repeat split; try assumption.
  - rewrite map_app. apply Forall_app. split; [exact Hu |].
    cbn [map]. rewrite H. constructor; [apply next_id_positive | constructor].
  - rewrite map_rewrite_same; [exact Hu | intros u; apply H].
  - rewrite map_app. apply Forall_app. split; [exact Hp |].
    cbn [map]. rewrite H. constructor; [apply next_id_positive | constructor].
  - rewrite map_rewrite_same; [exact Hp | intros p; apply H].
  - rewrite Forall_forall in *. intros k Hk. apply in_map_iff in Hk.
    destruct Hk as [p [<- Hk]]. apply filter_In in Hk.
    apply Hp. apply in_map. tauto.
  - rewrite map_map_id_comments. exact Hc.
  - rewrite map_app. apply Forall_app. split; [exact Hc |].
    cbn [map]. rewrite H. constructor; [apply next_id_positive | constructor].
  - rewrite map_app. apply Forall_app. split; [exact Hm |].
    cbn [map]. rewrite H. constructor; [apply next_id_positive | constructor].
  - rewrite map_rewrite_same; [exact Hm |].
    intros m. apply mark_read_effect.
Qed.

Lemma effect_identities_unique (db db' : DB) :
  identities_unique db -> effect db db' -> identities_unique db'.
Proof.
  intros [He Hn] Heff. unfold identities_unique.
  destruct Heff; cbn [users with_users with_posts with_comments with_messages
                      with_post_likes with_post_saves with_user_followers
                      update_user update_post_row session_delete_post];
    repeat split; try assumption.
  - rewrite map_app. cbn [map]. apply NoDup_app_new; [exact He |].
    intros Hin. apply in_map_iff in Hin. destruct Hin as [v [Ev Hv]].
    destruct (H0 v Hv) as [H1 _]. congruence.
  - rewrite map_app. cbn [map]. apply NoDup_app_new; [exact Hn |].
    intros Hin. apply in_map_iff in Hin. destruct Hin as [v [Ev Hv]].
    destruct (H0 v Hv) as [_ H2]. congruence.
  - rewrite map_rewrite_same; [exact He | intros u; apply H].
  - rewrite map_rewrite_same; [exact Hn | intros u; apply H].
Qed.

Lemma effect_edges_unique (db db' : DB) :
  edges_unique db -> effect db db' -> edges_unique db'.
Proof.
  intros [Hl [Hs Hf]] Heff. unfold edges_unique.
  destruct Heff; cbn [post_likes post_saves user_followers with_users
                      with_posts with_comments with_messages with_post_likes
                      with_post_saves with_user_followers update_user
                      update_post_row session_delete_post];
    repeat split; try assumption;
    try (apply NoDup_app_new; assumption);
    try (apply NoDup_remove_first; assumption);
    try (apply NoDup_filter_rows; assumption).
Qed.

(** A fact about the rows of a table carries over to a table with more
    users or more posts. *)
Ltac by_old_row :=
  let x := fresh "x" in
  let Hx := fresh "Hx" in
  intros x Hx;
  match goal with
  | H : forall y, In y ?T -> _, Hx : In x ?T |- _ => specialize (H x Hx)
  end;
  rewrite ?map_app; intuition auto with datatypes.

(** The same for a table with one more row [y], given the fact for [y]. *)
Ltac by_new_row :=
  let x := fresh "x" in
  let Hx := fresh "Hx" in
  intros x Hx; apply in_app_or in Hx;
  destruct Hx as [Hx | [Hx | []]];
  [ match goal with
    | H : forall y, In y ?T -> _, Hx : In x ?T |- _ => exact (H x Hx)
    end
  | subst x ].

Lemma effect_references_resolve (db db' : DB) :
  references_resolve db -> effect db db' -> references_resolve db'.
Proof.
  intros [Hl [Hs [Hf [Hp [Hc Hm]]]]] Heff.
  unfold references_resolve, has_user, has_post in *.
  destruct Heff; cbn [users posts comments messages post_likes post_saves
                      user_followers with_users with_posts with_comments
                      with_messages with_post_likes with_post_saves
                      with_user_followers update_user update_post_row
                      session_delete_post];
    repeat match goal with |- _ /\ _ => split end; try assumption.
  all: try rewrite (map_rewrite_same User.id) by (intros x; apply H);
    try rewrite (map_rewrite_same Post.id) by (intros x; apply H);
    try assumption.
  all: try solve [by_old_row].
  all: try solve [intros x Hx; apply In_remove_first in Hx; auto].
  - by_new_row. cbn [fst snd]. split; apply in_map; assumption.
  - by_new_row. destruct H0 as [a [Ha ->]]. apply in_map. exact Ha.
  - intros p' Hp'. apply in_map_iff in Hp'. destruct Hp' as [p [<- Hp']].
    destruct (Post.id p =? key); [| apply Hp; exact Hp'].
    destruct (H p) as [_ [-> _]]. apply Hp. exact Hp'.
  - intros e He. apply filter_In in He. destruct He as [He Hne].
    destruct (Hl e He) as [H1 H2]. split; [exact H1 |].
    apply in_map_iff in H2. destruct H2 as [p [Ep Hp']].
    apply in_map_iff. exists p. split; [exact Ep |].
    apply filter_In. split; [exact Hp' |]. rewrite Ep. exact Hne.
  - intros e He. apply filter_In in He. destruct He as [He Hne].
    destruct (Hs e He) as [H1 H2]. split; [exact H1 |].
    apply in_map_iff in H2. destruct H2 as [p [Ep Hp']].
    apply in_map_iff. exists p. split; [exact Ep |].
    apply filter_In. split; [exact Hp' |]. rewrite Ep. exact Hne.
  - intros p Hp'. apply filter_In in Hp'. apply Hp. tauto.
  - intros c' Hc'. apply in_map_iff in Hc'. destruct Hc' as [c [E Hc']].
    destruct (Hc c Hc') as [H1 H2].
    destruct (Comment.post_id c) as [q0 |] eqn:Eq.
    + destruct (q0 =? pid) eqn:Eqp; subst c'; cbn.
      * split; [exact H1 | discriminate].
      * split; [exact H1 |]. intros q Hq. rewrite Eq in Hq. inversion Hq.
        subst q0. specialize (H2 q eq_refl).
        apply in_map_iff in H2. destruct H2 as [p [Ep Hp']].
        apply in_map_iff. exists p. split; [exact Ep |].
        apply filter_In. split; [exact Hp' |]. rewrite Ep, Eqp. reflexivity.
    + subst c'. split; [exact H1 |]. intros q Hq. congruence.
  - by_new_row. cbn [fst snd]. split; apply in_map; assumption.
  - by_new_row. cbn [fst snd]. split; apply in_map; assumption.
  - by_new_row. destruct H0 as [a [Ha ->]]. destruct H1 as [p [Hp' Ep]].
    split; [apply in_map; exact Ha |]. intros q Hq. rewrite Ep in Hq.
    inversion Hq. apply in_map. exact Hp'.
  - by_new_row. destruct H1 as [a [Ha ->]]. destruct H2 as [b [Hb ->]].
    split; apply in_map; assumption.
  - intros m' Hm'. apply in_map_iff in Hm'. destruct Hm' as [m [<- Hm']].
    destruct (in_conversation me other m); [| apply Hm; exact Hm'].
    destruct (mark_read_effect me m) as [_ [_ [-> [-> _]]]].
    apply Hm. exact Hm'.
Qed.

Lemma effect_no_self_follow (db db' : DB) :
  keys_unique db -> no_self_follow db -> effect db db' -> no_self_follow db'.
Proof.
  intros [Hu _] Hself Heff. unfold no_self_follow in *.
  destruct Heff; cbn [user_followers with_users with_posts with_comments
                      with_messages with_post_likes with_post_saves
                      with_user_followers update_user update_post_row
                      session_delete_post]; try assumption.
  - by_new_row. cbn [fst snd]. intros E. apply H1. f_equal.
    eapply unique_key_row; eassumption.
  - intros x Hx. apply In_remove_first in Hx. auto.
Qed.

Lemma empty_db_consistent : consistent empty_db.
Proof.
  unfold consistent, keys_unique, keys_positive, identities_unique,
    edges_unique, references_resolve, no_self_follow. cbn.
  repeat match goal with |- _ /\ _ => split end;
    first [intros x [] | constructor].
Qed.

Lemma effect_consistent (db db' : DB) :
  consistent db -> effect db db' -> consistent db'.
Proof.
  intros [H1 [H2 [H3 [H4 [H5 H6]]]]] Heff.
  split; [eapply effect_keys_unique; eassumption |].
  split; [eapply effect_keys_positive; eassumption |].
  split; [eapply effect_identities_unique; eassumption |].
  split; [eapply effect_edges_unique; eassumption |].
  split; [eapply effect_references_resolve; eassumption |].
  eapply effect_no_self_follow; eassumption.
Qed.

Lemma reachable_consistent (db : DB) : reachable db -> consistent db.
Proof.
  revert db. apply (reachable_ind consistent).
  - exact empty_db_consistent.
  - intros env n db ev H. eapply effect_consistent; [exact H |].
    apply handle_effect.
Qed.

(* ------------------------------------------------------------------ *)
(** ** Registration and lookup of users *)

(** In a list without two rows of the same key, [find] by the key of a row
    gives that row. *)
Lemma find_by_unique_key {A K : Type} (key : A -> K) (eqb : K -> K -> bool)
    (l : list A) (x : A) :
  (forall a b, eqb a b = true <-> a = b) ->
  NoDup (map key l) -> In x l ->
  find (fun y => eqb (key y) (key x)) l = Some x.
Proof.
  intros Heqb. induction l as [| y l IH]; simpl; intros Hnd Hx; [destruct Hx |].
  inversion Hnd as [| ? ? Hy Hl]; subst.
  destruct (eqb (key y) (key x)) eqn:E.
  - apply Heqb in E. destruct Hx as [-> | Hx]; [reflexivity |].
    exfalso. apply Hy. rewrite E. apply in_map. exact Hx.
  - destruct Hx as [-> | Hx]; [| apply IH; assumption].
    assert (eqb (key x) (key x) = true) by (apply Heqb; reflexivity).
    congruence.
Qed.

Lemma find_app_new {A : Type} (f : A -> bool) (l : list A) (x : A) :
  (forall v, In v l -> f v = false) -> f x = true ->
  find f (l ++ [x]) = Some x.
Proof.
  intros Hl Hx. induction l as [| w ws IH]; cbn [app find].
  - rewrite Hx. reflexivity.
  - rewrite (Hl w (or_introl eq_refl)). apply IH.
    intros v Hv. apply Hl. right. exact Hv.
Qed.

(** X1: in every database the server reaches, no two users share an email
    or a username, and every stored user is the one found by their username,
    by their id, and by a token issued for their username. *)
Theorem registered_users_are_found (db : DB) :
  reachable db ->
  NoDup (map User.email (users db)) /\
  NoDup (map User.username (users db)) /\
  forall u, In u (users db) ->
            find_user_by_username db (User.username u) = Some u /\
            find_user_by_id db (User.id u) = Some u /\
            get_current_user db (User.username u) = Ok u.
Proof.
  intros Hr. destruct (reachable_consistent db Hr)
    as [[Hids _] [_ [[Hemails Hnames] _]]].
  split; [exact Hemails |]. split; [exact Hnames |].
  intros u Hu.
  assert (Hname : find_user_by_username db (User.username u) = Some u).
  { unfold find_user_by_username.
    apply (find_by_unique_key User.username String.eqb);
      [apply String.eqb_eq | exact Hnames | exact Hu]. }
  split; [exact Hname |]. split.
  - unfold find_user_by_id.
    apply (find_by_unique_key User.id Z.eqb);
      [apply Z.eqb_eq | exact Hids | exact Hu].
  - unfold get_current_user. rewrite Hname. reflexivity.
Qed.

Lemma registered_users_are_found_witness :
  NoDup (map User.email (users scenario_db)) /\
  NoDup (map User.username (users scenario_db)) /\
  forall u, In u (users scenario_db) ->
            find_user_by_username scenario_db (User.username u) = Some u /\
            find_user_by_id scenario_db (User.id u) = Some u /\
            get_current_user scenario_db (User.username u) = Ok u.
Proof.
  apply (registered_users_are_found scenario_db).
  exists scenario_env, scenario_events. reflexivity.
Defined.

(** X2: [register_user] answers 400 and leaves the database alone when a
    stored user has the email or the username.  Otherwise it appends one
    user with the next key, the given email, username and full name, the
    hash of the password, empty bio and avatar, and the clock reading; the
    row is committed, it is the one found by the username and the one a
    token for the username stands for; and the request is answered 500, not
    with a token: [new_user.to_dict()] raises after the commit.  The same
    registration sent again is refused with 400. *)
Theorem register_user_outcome
    (auth : Auth) (db : DB) (email username full_name password : string)
    (now : Z) :
  let r := register_user auth db email username full_name password now in
  let new_user :=
    User.mk (next_id (map User.id (users db))) email username full_name
            (get_password_hash auth password) "" "" now in
  ((exists v, In v (users db) /\
              (User.email v = email \/ User.username v = username)) ->
   r = (HTTPException 400 "User with this email or username already exists",
        db)) /\
  ((forall v, In v (users db) ->
              User.email v <> email /\ User.username v <> username) ->
   snd r = with_users db (users db ++ [new_user]) /\
   fst r = internal_error /\
   find_user_by_username (snd r) username = Some new_user /\
   get_current_user (snd r) username = Ok new_user /\
   forall now',
     register_user auth (snd r) email username full_name password now'
     = (HTTPException 400 "User with this email or username already exists",
        snd r)).
Proof.
  cbv zeta.
  assert (Hclash : forall db0,
             (exists v, In v (users db0) /\
                        (User.email v = email \/ User.username v = username)) ->
             forall t,
               register_user auth db0 email username full_name password t
               = (HTTPException 400
                    "User with this email or username already exists", db0)).
  { intros db0 [v [Hv Hc]] t. unfold register_user.
    match goal with
    | |- context [find ?g (users db0)] => destruct (find g (users db0)) eqn:E
    end; [reflexivity |].
    apply (find_none _ _ E) in Hv. cbn in Hv.
    apply orb_false_iff in Hv. destruct Hv as [H1 H2].
    apply String.eqb_neq in H1. apply String.eqb_neq in H2. tauto. }
  split; [intros H; apply Hclash; exact H |].
  intros Hfree.
  assert (Hr : register_user auth db email username full_name password now
               = (internal_error,
                  with_users db
                    (users db
                     ++ [User.mk (next_id (map User.id (users db))) email
                           username full_name
                           (get_password_hash auth password) "" "" now]))).
  { unfold register_user.
    match goal with
    | |- context [find ?g (users db)] => destruct (find g (users db)) eqn:E
    end; [| reflexivity].
    apply find_some in E. destruct E as [Hin E].
    destruct (Hfree _ Hin) as [H1 H2]. cbn in E.
    apply orb_true_iff in E. rewrite !String.eqb_eq in E. tauto. }
  rewrite Hr. cbn [fst snd].
  assert (Hfind : find_user_by_username
                    (with_users db
                       (users db
                        ++ [User.mk (next_id (map User.id (users db))) email
                              username full_name
                              (get_password_hash auth password) "" "" now]))
                    username
                  = Some (User.mk (next_id (map User.id (users db))) email
                            username full_name
                            (get_password_hash auth password) "" "" now)).
  { unfold find_user_by_username. cbn [users with_users].
    apply find_app_new.
    - intros v Hv. apply String.eqb_neq. apply Hfree. exact Hv.
    - apply String.eqb_refl. }
  split; [reflexivity |]. split; [reflexivity |]. split; [exact Hfind |].
  split; [unfold get_current_user; rewrite Hfind; reflexivity |].
  intros now'. apply Hclash. eexists. split.
  - cbn [users with_users]. apply in_or_app. right. left. reflexivity.
  - left. reflexivity.
Qed.

(** The first request of the scenario: [alice] is stored and gets no token. *)
Lemma register_user_outcome_witness :
  let r := register_user (env_auth scenario_env) empty_db "alice@example.org"
             "alice" "Alice" "secret-a" 0 in
  users (snd r) = [alice] /\ fst r = internal_error /\
  get_current_user (snd r) "alice" = Ok alice.
Proof.
  pose proof (register_user_outcome (env_auth scenario_env) empty_db
                "alice@example.org" "alice" "Alice" "secret-a" 0) as H.
  cbv zeta in H. destruct H as [_ H].
  destruct H as [H1 [H2 [_ [H4 _]]]]; [intros v [] |].
  split; [rewrite H1; reflexivity |]. split; [exact H2 | exact H4].
Defined.
(* ------------------------------------------------------------------ *)
(** ** Unfollowing and the derived counts *)

Lemma unfollow_user_found (db : DB) (current_user target : User.t)
    (username : string) :
  find_user_by_username db username = Some target ->
  unfollow_user db current_user username
  = (Ok ("Unfollowed " ++ username)%string,
     if mem (User.id target) (following db (User.id current_user))
     then with_user_followers db
            (remove_first (User.id current_user, User.id target)
                          (user_followers db))
     else db).
Proof.
  intros Hfind. unfold unfollow_user. rewrite Hfind.
  destruct (mem (User.id target) (following db (User.id current_user)));
    reflexivity.
Qed.

(** X3: in a reachable database, [unfollow_user] on an existing user
    succeeds, leaves no edge from the caller to that user, keeps every other
    edge, and a second call changes nothing more; on a username nobody has it
    answers 404 and changes nothing. *)
Theorem unfollow_user_removes_edge
    (db : DB) (current_user target : User.t) (username : string) :
  reachable db ->
  find_user_by_username db username = Some target ->
  let edge := (User.id current_user, User.id target) in
  let r := unfollow_user db current_user username in
  fst r = Ok ("Unfollowed " ++ username)%string /\
  ~ In edge (user_followers (snd r)) /\
  (forall e, e <> edge ->
             (In e (user_followers (snd r)) <-> In e (user_followers db))) /\
  unfollow_user (snd r) current_user username = r /\
  (forall missing,
      find_user_by_username db missing = None ->
      unfollow_user db current_user missing
      = (HTTPException 404 "User not found", db)).
Proof.
  intros Hr Hfind. cbv zeta.
  destruct (reachable_consistent db Hr) as [_ [_ [_ [[_ [_ Hnd]] _]]]].
  rewrite (unfollow_user_found db current_user target username Hfind).
  cbn [fst snd].
  destruct (mem (User.id target) (following db (User.id current_user)))
    eqn:Hmem.
  - destruct (NoDup_remove_first (User.id current_user, User.id target)
                (user_followers db) Hnd) as [_ Hgone].
    split; [reflexivity |]. split; [exact Hgone |]. split.
    + intros e He. cbn [user_followers with_user_followers]. split.
      * apply In_remove_first.
      * apply In_remove_first_other. exact He.
    + split.
      * set (db1 := with_user_followers db
                      (remove_first (User.id current_user, User.id target)
                                    (user_followers db))).
        assert (Hfind1 : find_user_by_username db1 username = Some target)
          by exact Hfind.
        rewrite (unfollow_user_found db1 current_user target username Hfind1).
        replace (mem (User.id target) (following db1 (User.id current_user)))
          with false; [reflexivity |].
        symmetry. apply mem_false_In. rewrite In_following. exact Hgone.
      * intros missing Hm. unfold unfollow_user. rewrite Hm. reflexivity.
  - assert (Habs : ~ In (User.id current_user, User.id target)
                     (user_followers db)).
    { rewrite <- In_following. apply mem_false_In. exact Hmem. }
    split; [reflexivity |]. split; [exact Habs |]. split; [tauto |].
    split.
    + rewrite (unfollow_user_found db current_user target username Hfind).
      rewrite Hmem. reflexivity.
    + intros missing Hm. unfold unfollow_user. rewrite Hm. reflexivity.
Qed.

Lemma unfollow_user_removes_edge_witness :
  let db := snd (follow_user scenario_db alice "bob") in
  let r := unfollow_user db alice "bob" in
  fst r = Ok "Unfollowed bob"%string /\
  ~ In (1, 2) (user_followers (snd r)) /\
  (forall e, e <> (1, 2) ->
             (In e (user_followers (snd r)) <-> In e (user_followers db))) /\
  unfollow_user (snd r) alice "bob" = r /\
  (forall missing,
      find_user_by_username db missing = None ->
      unfollow_user db alice missing
      = (HTTPException 404 "User not found", db)).
Proof.
  apply (unfollow_user_removes_edge
           (snd (follow_user scenario_db alice "bob")) alice bob "bob").
  - exists scenario_env,
      (scenario_events ++ [Authenticated "alice" (FollowUser "bob")]).
    reflexivity.
  - reflexivity.
Defined.

(** X4: following a user one does not follow yet and then unfollowing them
    gives back the database one started from. *)
Theorem follow_then_unfollow_restores
    (db : DB) (current_user target : User.t) (username : string) :
  User.username current_user <> username ->
  find_user_by_username db username = Some target ->
  mem (User.id target) (following db (User.id current_user)) = false ->
  snd (unfollow_user (snd (follow_user db current_user username))
                     current_user username) = db.
Proof.
  intros Hne Hfind Hmem.
  rewrite (follow_user_other db current_user target username Hne Hfind).
  rewrite Hmem. cbn [snd].
  set (db1 := with_user_followers db
                (user_followers db
                 ++ [(User.id current_user, User.id target)])).
  assert (Hfind1 : find_user_by_username db1 username = Some target)
    by exact Hfind.
  rewrite (unfollow_user_found db1 current_user target username Hfind1).
  assert (Hmem1 : mem (User.id target) (following db1 (User.id current_user))
                  = true).
  { apply mem_In. apply In_following. unfold db1.
    cbn [user_followers with_user_followers].
    apply in_or_app. right. left. reflexivity. }
  rewrite Hmem1. cbn [snd]. unfold db1.
  cbn [user_followers with_user_followers].
  rewrite remove_first_app_new.
  - destruct db; reflexivity.
  - rewrite <- In_following. apply mem_false_In. exact Hmem.
Qed.

Lemma follow_then_unfollow_restores_witness :
  snd (unfollow_user (snd (follow_user scenario_db alice "bob")) alice "bob")
  = scenario_db.
Proof.
  apply (follow_then_unfollow_restores scenario_db alice bob "bob").
  - discriminate.
  - reflexivity.
  - reflexivity.
Defined.

Lemma length_by_snd_app (key : Z) (es : list (Z * Z)) (e : Z * Z) :
  List.length (map fst (filter (fun x => snd x =? key) (es ++ [e])))
  = Nat.add (List.length (map fst (filter (fun x => snd x =? key) es)))
            (one_if (snd e =? key)).
Proof.
  rewrite filter_app, map_app, length_app. simpl.
  destruct (snd e =? key); reflexivity.
Qed.

Lemma length_by_fst_app (key : Z) (es : list (Z * Z)) (e : Z * Z) :
  List.length (map snd (filter (fun x => fst x =? key) (es ++ [e])))
  = Nat.add (List.length (map snd (filter (fun x => fst x =? key) es)))
            (one_if (fst e =? key)).
Proof.
  rewrite filter_app, map_app, length_app. simpl.
  destruct (fst e =? key); reflexivity.
Qed.

(** X5: the counts that [GET /users/me] answers are derived from the follow
    table: when a follow adds an edge, the caller then reads a
    [following_count] one higher and the followed user a [followers_count]
    one higher, and every user [w] reads counts that grew by exactly the
    number of ends of the new edge that are [w]. *)
Theorem follow_user_moves_counts
    (db : DB) (current_user target : User.t) (username : string) :
  User.username current_user <> username ->
  find_user_by_username db username = Some target ->
  mem (User.id target) (following db (User.id current_user)) = false ->
  let db' := snd (follow_user db current_user username) in
  forall w, exists d d',
    read_users_me db w = (Ok d, db) /\
    read_users_me db' w = (Ok d', db') /\
    ud_following_count d'
    = Nat.add (ud_following_count d)
              (one_if (User.id current_user =? User.id w)) /\
    ud_followers_count d'
    = Nat.add (ud_followers_count d) (one_if (User.id target =? User.id w)).
Proof.
  intros Hne Hfind Hmem. cbv zeta.
  rewrite (follow_user_other db current_user target username Hne Hfind).
  rewrite Hmem. cbn [snd]. intros w.
  eexists. eexists. split; [reflexivity |]. split; [reflexivity |].
  unfold following, followers.
  cbn [ud_following_count ud_followers_count user_followers
       with_user_followers].
  rewrite length_by_fst_app, length_by_snd_app. cbn [fst snd].
  split; reflexivity.
Qed.

Lemma follow_user_moves_counts_witness :
  let db' := snd (follow_user scenario_db alice "bob") in
  (forall w, exists d d',
      read_users_me scenario_db w = (Ok d, scenario_db) /\
      read_users_me db' w = (Ok d', db') /\
      ud_following_count d'
      = Nat.add (ud_following_count d) (one_if (User.id alice =? User.id w)) /\
      ud_followers_count d'
      = Nat.add (ud_followers_count d) (one_if (User.id bob =? User.id w))) /\
  option_map (fun d => (ud_followers_count d, ud_following_count d))
    (match fst (read_users_me db' bob) with
     | Ok d => Some d
     | HTTPException _ _ => None
     end) = Some (1%nat, 0%nat).
Proof.
  split; [| reflexivity].
  apply (follow_user_moves_counts scenario_db alice bob "bob").
  - discriminate.
  - reflexivity.
  - reflexivity.
Defined.
(* ------------------------------------------------------------------ *)
(** ** The like and save tables *)

(** What one request does to the like and save tables: nothing, or the
    removal of the rows of a deleted post. *)
Lemma handle_likes_saves (env : Env) (n : nat) (db : DB) (ev : Event) :
  let db' := snd (handle env n db ev) in
  (post_likes db' = post_likes db /\ post_saves db' = post_saves db) \/
  (exists pid,
      post_likes db' = filter (fun e => negb (snd e =? pid)) (post_likes db) /\
      post_saves db' = filter (fun e => negb (snd e =? pid)) (post_saves db)).
Proof.
  cbv zeta. destruct ev as [[|] | subject req].
  - open_handle. handler_cases; left; split; reflexivity.
  - open_handle. handler_cases; left; split; reflexivity.
  - unfold handle. destruct (get_current_user db subject) as [cu | c d];
      [| left; split; reflexivity].
    destruct req;
      try (open_handle; cbn [relationship]; cbv zeta; handler_cases;
           cbn [snd fst]; left; split; reflexivity).
    unfold dispatch, answer, delete_post.
    destruct (find_post db post_id) as [post |];
      [| left; split; reflexivity].
    destruct (negb (Post.author_id post =? User.id cu));
      [left; split; reflexivity |].
    right. exists (Post.id post). split; reflexivity.
Qed.

(** X6: the server never stores a like or a save.  On a stored post each of
    the four handlers reads the post's relationship first, which raises: the
    request is answered 500 and the database is as it was; on a missing post
    it is answered 404.  So in every database the server reaches the like
    table and the save table are empty, and the liked and the saved listing
    of every caller are empty too. *)
Theorem likes_and_saves_never_stored :
  (forall (db : DB) (current_user : User.t) (post_id : Z),
      let code := match find_post db post_id with
                  | Some _ => 500
                  | None => 404
                  end in
      answer (like_post db current_user post_id) = (code, db) /\
      answer (unlike_post db current_user post_id) = (code, db) /\
      answer (save_post db current_user post_id) = (code, db) /\
      answer (unsave_post db current_user post_id) = (code, db)) /\
  (forall db : DB,
      reachable db ->
      post_likes db = [] /\ post_saves db = [] /\
      forall (current_user : User.t) (skip limit : Z)
             (category : option string) (scope : string),
        scope = "liked"%string \/ scope = "saved"%string ->
        get_posts db current_user skip limit category (Some scope)
        = (Ok [], db)).
Proof.
  split.
  - intros db cu pid. cbv zeta.
    unfold answer, like_post, unlike_post, save_post, unsave_post.
    destruct (find_post db pid); repeat split.
  - intros db Hr.
    assert (H : post_likes db = [] /\ post_saves db = []).
    { revert db Hr.
      apply (reachable_ind (fun db => post_likes db = [] /\ post_saves db = [])).
      - split; reflexivity.
      - intros env n db ev [Hl Hs].
        destruct (handle_likes_saves env n db ev)
          as [[El Es] | [pid [El Es]]]; cbv zeta in El, Es;
          rewrite El, Es, Hl, Hs; split; reflexivity. }
    destruct H as [Hl Hs]. split; [exact Hl |]. split; [exact Hs |].
    intros cu skip limit category scope Hscope. unfold get_posts.
    assert (Hnone : forall l : list Post.t,
               (if String.eqb scope "saved"
                then filter (fun p => mem (User.id cu) (saved_by db (Post.id p))) l
                else if String.eqb scope "liked"
                     then filter (fun p => mem (User.id cu)
                                             (liked_by db (Post.id p))) l
                     else l) = []).
    { intros l. unfold saved_by, liked_by. rewrite Hl, Hs. cbn [filter map mem existsb].
      destruct Hscope as [-> | ->]; cbn [String.eqb];
        induction l as [| p l IH]; cbn; auto. }
    rewrite Hnone. unfold paginate. rewrite skipn_nil, firstn_nil.
    destruct (limit <? 0); reflexivity.
Qed.
(* ------------------------------------------------------------------ *)
(** ** Creating a post *)

Lemma filter_none {A : Type} (f : A -> bool) (l : list A) :
  (forall x, In x l -> f x = false) -> filter f l = [].
Proof.
  induction l as [| y l IH]; simpl; intros H; [reflexivity |].
  rewrite (H y (or_introl eq_refl)). apply IH.
  intros x Hx. apply H. right. exact Hx.
Qed.

(** X10: [create_post] never answers with the new post.  When the media
    file cannot be written the request ends with 500 and nothing is stored.
    Otherwise, in a reachable database and for a stored caller, exactly one
    post is appended and committed before the failing [to_dict]: it has a key
    that no stored post has, the given title, body, type and category, the
    caller as author, the two clock readings, and as media reference the
    empty string or the path of the written file; it is the post found by
    that key; and no like, save or comment is attached to it, even when a
    post that once had that key was commented before it was deleted. *)
Theorem create_post_stores_one_post
    (db : DB) (current_user : User.t)
    (title content post_type category : string) (media : option UploadFile)
    (uuid : string) (now_created now_updated : Z) :
  reachable db ->
  In current_user (users db) ->
  let r := create_post db current_user title content post_type category
                       media uuid now_created now_updated in
  let key := next_id (map Post.id (posts db)) in
  fst r = internal_error /\
  (upload_written media = false -> snd r = db) /\
  (upload_written media = true ->
   exists p,
     snd r = with_posts db (posts db ++ [p]) /\
     find_post (snd r) key = Some p /\
     ~ has_post db key /\
     Post.id p = key /\
     Post.title p = title /\ Post.content p = content /\
     Post.post_type p = post_type /\ Post.category p = category /\
     Post.author_id p = User.id current_user /\
     Post.created_at p = now_created /\ Post.updated_at p = now_updated /\
     Post.media_url p
     = match media with
       | None => ""
       | Some f =>
           "/uploads/"
           ++ (if String.eqb post_type "video" then "videos" else "images")
           ++ "/" ++ uuid ++ "." ++ split_dot_last (filename f)
       end%string /\
     liked_by (snd r) key = [] /\ saved_by (snd r) key = [] /\
     post_comments (snd r) key = []).
Proof.
  intros Hr Hcu. cbv zeta.
  destruct (reachable_consistent db Hr)
    as [_ [_ [_ [_ [[Hl [Hs [_ [_ [Hc _]]]]] _]]]]].
  set (key := next_id (map Post.id (posts db))).
  assert (Hfresh : ~ has_post db key) by apply next_id_fresh.
  assert (Hlikes : filter (fun e => snd e =? key) (post_likes db) = []).
  { apply filter_none. intros e He. apply Z.eqb_neq. intros E.
    apply Hfresh. rewrite <- E. apply (Hl e He). }
  assert (Hsaves : filter (fun e => snd e =? key) (post_saves db) = []).
  { apply filter_none. intros e He. apply Z.eqb_neq. intros E.
    apply Hfresh. rewrite <- E. apply (Hs e He). }
  assert (Hcomments : post_comments db key = []).
  { unfold post_comments. apply filter_none. intros c Hcin.
    destruct (Comment.post_id c) as [q |] eqn:Eq; [| reflexivity].
    apply Z.eqb_neq. intros E. apply Hfresh. rewrite <- E.
    apply (Hc c Hcin). exact Eq. }
  unfold create_post. cbv zeta. fold key.
  destruct (upload_written media); cbn [negb fst snd].
  - split; [reflexivity |]. split; [discriminate |]. intros _.
    eexists. split; [reflexivity |].
    split.
    { unfold find_post. cbn [posts with_posts]. apply find_app_new.
      - intros p Hp. apply Z.eqb_neq. intros E. apply Hfresh.
        rewrite <- E. apply in_map. exact Hp.
      - apply Z.eqb_refl. }
    split; [exact Hfresh |].
    cbn [Post.id Post.title Post.content Post.post_type Post.category
         Post.author_id Post.created_at Post.updated_at Post.media_url].
    do 8 (split; [reflexivity |]).
    split.
    { destruct media as [f |]; [| reflexivity]. unfold upload_url.
      destruct (String.eqb post_type "video"); reflexivity. }
    unfold liked_by, saved_by.
    cbn [post_likes post_saves with_posts].
    rewrite Hlikes, Hsaves. split; [reflexivity |]. split; [reflexivity |].
    exact Hcomments.
  - split; [reflexivity |]. split; [reflexivity | discriminate].
Qed.

Lemma create_post_stores_one_post_witness :
  let r := create_post scenario_db bob "Second" "More text" "video" "news"
                       (Some (mkUploadFile "clip.final.mp4" true)) "0001" 8 9 in
  fst r = internal_error /\
  posts (snd r)
  = posts scenario_db
    ++ [Post.mk 2 "Second" "More text" "video" "news"
                "/uploads/videos/0001.mp4" 2 8 9].
Proof.
  pose proof (create_post_stores_one_post scenario_db bob "Second" "More text"
                "video" "news" (Some (mkUploadFile "clip.final.mp4" true))
                "0001" 8 9) as H.
  cbv zeta in H. destruct H as [H1 _].
  - exists scenario_env, scenario_events. reflexivity.
  - right. left. reflexivity.
  - split; [exact H1 | reflexivity].
Defined.

(** A media file whose name has a slash after its last dot: [open] fails and
    the post is not created. *)
Lemma create_post_unwritable_media :
  create_post scenario_db bob "Second" "More text" "video" "news"
              (Some (mkUploadFile "x.b/c" true)) "0001" 8 9
  = (internal_error, scenario_db).
Proof. reflexivity. Qed.
(* ------------------------------------------------------------------ *)
(** ** What the reading handlers answer *)





(** In the scenario every listing that has something to show fails, the
    post of [alice] cannot be read, and an empty listing is answered. *)
Lemma scenario_listings :
  fst (get_posts scenario_db bob 0 20 None None) = internal_error /\
  fst (get_user_posts scenario_db bob "alice" 0 20) = internal_error /\
  fst (get_user_posts scenario_db alice "bob" 0 20) = Ok [] /\
  fst (get_post scenario_db bob 1) = internal_error /\
  fst (get_user_profile scenario_db bob "alice") = internal_error /\
  fst (search scenario_db bob "ali" "users" 0 20) = internal_error /\
  fst (search scenario_db bob "zzz" "users" 0 20) = Ok (FoundUsers []) /\
  fst (get_messages scenario_db bob) = Ok [].
Proof. vm_compute. repeat split. Qed.
(* ------------------------------------------------------------------ *)
(** ** File extensions of uploads *)

Local Open Scope string_scope.

(** X13: [split_dot_last], the model of [filename.split(".")[-1]], gives a
    dot-free suffix of the file name: the whole name when it has no dot, and
    otherwise what follows its last dot. *)
Theorem split_dot_last_is_extension (s : string) :
  has_dot (split_dot_last s) = false /\
  (has_dot s = false -> split_dot_last s = s) /\
  (has_dot s = true ->
   exists stem, s = stem ++ "." ++ split_dot_last s).
Proof.
  induction s as [| c s [IH1 [IH2 IH3]]]; cbn [split_dot_last has_dot].
  - split; [reflexivity |]. split; [reflexivity | discriminate].
  - destruct (has_dot s) eqn:Hs.
    + split; [exact IH1 |]. split.
      * rewrite orb_true_r. discriminate.
      * intros _. destruct (IH3 eq_refl) as [stem E].
        exists (String c stem). rewrite E at 1. reflexivity.
    + destruct (Ascii.eqb c ".") eqn:Ec.
      * split; [exact Hs |]. split; [discriminate |].
        intros _. apply Ascii.eqb_eq in Ec. subst c.
        exists "". reflexivity.
      * split; [cbn [has_dot]; rewrite Ec, Hs; reflexivity |].
        split; [reflexivity | discriminate].
Qed.

Local Close Scope string_scope.

(* ------------------------------------------------------------------ *)
(** ** Sending, and reading twice *)

Lemma mark_read_twice (me : Z) (m : Message.t) :
  mark_read me (mark_read me m) = mark_read me m.
Proof.
  unfold mark_read.
  destruct ((Message.receiver_id m =? me) && negb (Message.is_read m)) eqn:E.
  - cbn. rewrite andb_false_r. reflexivity.
  - rewrite E. reflexivity.
Qed.

Lemma in_conversation_mark_read (me other me' : Z) (m : Message.t) :
  in_conversation me other (mark_read me' m) = in_conversation me other m.
Proof.
  unfold in_conversation.
  destruct (mark_read_effect me' m) as [_ [_ [-> [-> _]]]]. reflexivity.
Qed.

Section SortMap.
Context {A : Type}.
Variable le : A -> A -> bool.
Variable f : A -> A.
Hypothesis le_f : forall a b, le (f a) (f b) = le a b.

Lemma insert_by_map (x : A) (l : list A) :
  insert_by le (f x) (map f l) = map f (insert_by le x l).
Proof.
  induction l as [| y l IH]; simpl; [reflexivity |].
  rewrite le_f. destruct (le x y); simpl; [reflexivity |].
  rewrite IH. reflexivity.
Qed.

Lemma sort_by_map (l : list A) :
  sort_by le (map f l) = map f (sort_by le l).
Proof.
  induction l as [| x l IH]; simpl; [reflexivity |].
  rewrite IH. apply insert_by_map.
Qed.
End SortMap.

Lemma filter_map_same {A : Type} (c : A -> bool) (g : A -> A) (l : list A) :
  (forall x, c (g x) = c x) -> filter c (map g l) = map g (filter c l).
Proof.
  intros H. induction l as [| x l IH]; simpl; [reflexivity |].
  rewrite H. destruct (c x); simpl; rewrite IH; reflexivity.
Qed.

(** Reading a conversation a second time answers and stores what the first
    read did. *)
Lemma get_conversation_twice
    (db : DB) (current_user : User.t) (user_id : Z) :
  get_conversation (snd (get_conversation db current_user user_id))
                   current_user user_id
  = get_conversation db current_user user_id.
Proof.
  set (me := User.id current_user).
  set (g := fun m => if in_conversation me user_id m
                     then mark_read me m else m).
  assert (Hg_conv : forall m, in_conversation me user_id (g m)
                              = in_conversation me user_id m).
  { intros m. unfold g. destruct (in_conversation me user_id m) eqn:E;
      [rewrite in_conversation_mark_read |]; exact E. }
  assert (Hgg : forall m, g (g m) = g m).
  { intros m. unfold g at 1. rewrite Hg_conv. unfold g.
    destruct (in_conversation me user_id m);
      [apply mark_read_twice | reflexivity]. }
  assert (Hdb : snd (get_conversation db current_user user_id)
                = with_messages db (map g (messages db))) by reflexivity.
  rewrite Hdb. unfold get_conversation. fold me. fold g.
  cbn [messages with_messages].
  assert (Hstore : with_messages (with_messages db (map g (messages db)))
                     (map g (map g (messages db)))
                   = with_messages db (map g (messages db))).
  { rewrite map_map. unfold with_messages. cbn. f_equal.
    apply map_ext. exact Hgg. }
  rewrite Hstore. f_equal. f_equal. f_equal.
  rewrite (filter_map_same _ g _ Hg_conv).
  assert (Hsel : map g (filter (in_conversation me user_id) (messages db))
                 = map (mark_read me)
                     (filter (in_conversation me user_id) (messages db))).
  { apply map_ext_in. intros m Hm. apply filter_In in Hm. unfold g.
    destruct Hm as [_ ->]. reflexivity. }
  rewrite Hsel. unfold order_by_asc.
  rewrite (sort_by_map _ (mark_read me)).
  - rewrite map_map. apply map_ext. intros m. apply mark_read_twice.
  - intros a b.
    destruct (mark_read_effect me a) as [_ [_ [_ [_ [-> _]]]]].
    destruct (mark_read_effect me b) as [_ [_ [_ [_ [-> _]]]]].
    reflexivity.
Qed.

(** X15: [send_message] to an id no user has answers 404 and stores
    nothing.  To a stored user it appends one unread message with the next
    key, the caller as sender, the given receiver, body and clock reading,
    and commits it; the answer is 500, [new_message.to_dict()] raises after
    the commit.  The message is delivered all the same: it belongs to the
    conversation of the two users, and the receiver's next read of that
    conversation stores it as read. *)
Theorem send_message_delivers
    (db : DB) (current_user : User.t) (user_id : Z) (content : string)
    (now : Z) :
  let r := send_message db current_user user_id content now in
  let m := Message.mk (next_id (map Message.id (messages db))) content
                      (User.id current_user) user_id now false in
  (find_user_by_id db user_id = None ->
   r = (HTTPException 404 "User not found", db)) /\
  (find_user_by_id db user_id <> None ->
   r = (internal_error, with_messages db (messages db ++ [m])) /\
   ~ In (Message.id m) (map Message.id (messages db)) /\
   in_conversation user_id (User.id current_user) m = true /\
   forall receiver,
     User.id receiver = user_id ->
     In (Message.mk (Message.id m) content (User.id current_user) user_id
                    now true)
        (messages (snd (get_conversation (snd r) receiver
                          (User.id current_user))))).
Proof.
  cbv zeta. unfold send_message. split.
  - intros ->. reflexivity.
  - intros Hr.
    destruct (find_user_by_id db user_id) as [rcv |] eqn:Er; [| congruence].
    cbn [fst snd]. split; [reflexivity |].
    split; [apply next_id_fresh |].
    assert (Hconv : in_conversation user_id (User.id current_user)
                      (Message.mk (next_id (map Message.id (messages db)))
                         content (User.id current_user) user_id now false)
                    = true).
    { unfold in_conversation. cbn [Message.sender_id Message.receiver_id].
      rewrite !Z.eqb_refl. cbn [andb]. apply orb_true_r. }
    split; [exact Hconv |].
    intros receiver Hid. rewrite get_conversation_db. rewrite Hid.
    cbn [messages with_messages]. rewrite map_app. apply in_or_app. right.
    cbn [map]. rewrite Hconv. left. unfold mark_read.
    cbn [Message.receiver_id Message.is_read Message.id Message.content
         Message.sender_id Message.created_at negb].
    rewrite Z.eqb_refl. reflexivity.
Qed.

Lemma send_message_delivers_witness :
  let r := send_message scenario_db alice 2 "hi" 6 in
  r = (internal_error,
       with_messages scenario_db [Message.mk 1 "hi" 1 2 6 false]) /\
  messages (snd (get_conversation (snd r) bob 1))
  = [Message.mk 1 "hi" 1 2 6 true].
Proof.
  pose proof (send_message_delivers scenario_db alice 2 "hi" 6) as H.
  cbv zeta in H. destruct H as [_ H].
  destruct H as [H1 _]; [vm_compute; discriminate |].
  split; [exact H1 | reflexivity].
Defined.

(** X16: the marks of a conversation read are stored once: a second
    [get_conversation] by the same caller about the same user leaves the
    database exactly as the first left it, whatever is answered. *)
Theorem get_conversation_twice_is_once
    (db : DB) (current_user : User.t) (user_id : Z) :
  snd (get_conversation (snd (get_conversation db current_user user_id))
                        current_user user_id)
  = snd (get_conversation db current_user user_id).
Proof. rewrite get_conversation_twice. reflexivity. Qed.
(* ------------------------------------------------------------------ *)
(** ** Comments, and what deleting a post does to them *)

(** X18: [create_comment] on a post that does not exist answers 404 and
    stores nothing; on an existing post it appends one comment with the next
    key, the caller as author, the post and the given body, commits it, and
    is answered 500 ([new_comment.to_dict()] raises after the commit).  The
    comment is attached to the post, after the comments the post had, and
    the comments of every other post are as they were. *)
Theorem create_comment_appends
    (db : DB) (current_user : User.t) (post_id : Z) (content : string)
    (now : Z) :
  let r := create_comment db current_user post_id content now in
  let c := Comment.mk (next_id (map Comment.id (comments db))) content
                      (User.id current_user) (Some post_id) now in
  (find_post db post_id = None ->
   r = (HTTPException 404 "Post not found", db)) /\
  (find_post db post_id <> None ->
   r = (internal_error, with_comments db (comments db ++ [c])) /\
   ~ In (Comment.id c) (map Comment.id (comments db)) /\
   post_comments (snd r) post_id = post_comments db post_id ++ [c] /\
   (forall q, q <> post_id ->
              post_comments (snd r) q = post_comments db q)).
Proof.
  cbv zeta. unfold create_comment. split.
  - intros ->. reflexivity.
  - intros Hp.
    destruct (find_post db post_id) as [post |] eqn:Hfind; [| congruence].
    cbn [fst snd].
    set (c := Comment.mk (next_id (map Comment.id (comments db))) content
                         (User.id current_user) (Some post_id) now).
    split; [reflexivity |]. split; [apply next_id_fresh |]. split.
    + unfold post_comments. cbn [comments with_comments].
      rewrite filter_app. cbn [filter Comment.post_id c].
      rewrite Z.eqb_refl. reflexivity.
    + intros q Hq. unfold post_comments. cbn [comments with_comments].
      rewrite filter_app. cbn [filter Comment.post_id c].
      assert ((post_id =? q) = false) as -> by (apply Z.eqb_neq; congruence).
      apply app_nil_r.
Qed.

Lemma create_comment_appends_witness :
  let r := create_comment scenario_db bob 1 "Nice" 6 in
  r = (internal_error,
       with_comments scenario_db [Comment.mk 1 "Nice" 2 (Some 1) 6]) /\
  post_comments (snd r) 1 = [Comment.mk 1 "Nice" 2 (Some 1) 6].
Proof.
  pose proof (create_comment_appends scenario_db bob 1 "Nice" 6) as H.
  cbv zeta in H. destruct H as [_ H].
  destruct H as [H1 [_ [H3 _]]]; [vm_compute; discriminate |].
  split; [exact H1 | exact H3].
Defined.

Lemma Forall2_map_r {A B : Type} (R : A -> B -> Prop) (f : A -> B)
    (l : list A) :
  (forall x, R x (f x)) -> Forall2 R l (map f l).
Proof. intros H. induction l; simpl; constructor; auto. Qed.

(** X19: [delete_post] by the author never deletes a comment: afterwards
    the comment table holds the same comments, in order, with the same
    body, author and timestamp, those of the deleted post with their
    [post_id] set to NULL and the others untouched; the deleted post has no
    comments left to list, and users, messages and follows are as before. *)
Theorem delete_post_detaches_comments
    (db : DB) (current_user : User.t) (post_id : Z) (post : Post.t) :
  find_post db post_id = Some post ->
  Post.author_id post = User.id current_user ->
  let db' := snd (delete_post db current_user post_id) in
  Forall2 (comment_detached post_id) (comments db) (comments db') /\
  post_comments db' post_id = [] /\
  (forall q, q <> post_id ->
             map Comment.id (post_comments db' q)
             = map Comment.id (post_comments db q)) /\
  users db' = users db /\ messages db' = messages db /\
  user_followers db' = user_followers db.
Proof.
  intros Hfind Hauthor. cbv zeta.
  destruct (find_post_id _ _ _ Hfind) as [Hid _].
  unfold delete_post. rewrite Hfind, Hauthor, Z.eqb_refl, Hid.
  cbn [negb snd]. unfold session_delete_post.
  cbn [comments users messages user_followers].
  split; [| split; [| split; [| repeat split]]].
  - apply Forall2_map_r. intros c. unfold comment_detached.
    destruct (Comment.post_id c) as [q |] eqn:Eq.
    + destruct (q =? post_id); cbn; rewrite ?Eq; repeat split.
    + rewrite Eq. repeat split.
  - unfold post_comments. cbn [comments]. apply filter_none.
    intros c' Hc'. apply in_map_iff in Hc'. destruct Hc' as [c [<- _]].
    destruct (Comment.post_id c) as [q |] eqn:Eq.
    + destruct (q =? post_id) eqn:E; [reflexivity |]. rewrite Eq. exact E.
    + rewrite Eq. reflexivity.
  - intros q Hq. unfold post_comments. cbn [comments].
    induction (comments db) as [| c cs IH]; [reflexivity |].
    cbn [map filter].
    destruct (Comment.post_id c) as [q0 |] eqn:Eq.
    + destruct (q0 =? post_id) eqn:E.
      * cbn [Comment.post_id]. apply Z.eqb_eq in E. subst q0.
        assert ((post_id =? q) = false) as -> by (apply Z.eqb_neq; congruence).
        exact IH.
      * rewrite Eq. destruct (q0 =? q); cbn [map]; rewrite IH; reflexivity.
    + rewrite Eq. exact IH.
Qed.

Lemma delete_post_detaches_comments_witness :
  let db := snd (create_comment scenario_db bob 1 "Nice" 6) in
  let db' := snd (delete_post db alice 1) in
  List.length (comments db') = 1%nat /\
  Forall2 (comment_detached 1) (comments db) (comments db') /\
  post_comments db' 1 = [] /\
  (forall q, q <> 1 ->
             map Comment.id (post_comments db' q)
             = map Comment.id (post_comments db q)) /\
  users db' = users db /\ messages db' = messages db /\
  user_followers db' = user_followers db.
Proof.
  split; [reflexivity |].
  apply (delete_post_detaches_comments
           (snd (create_comment scenario_db bob 1 "Nice" 6)) alice 1
           (Post.mk 1 "Hello" "First post" "blog" "sports" "" 1 4 5)).
  - reflexivity.
  - reflexivity.
Defined.

(** X20: [delete_post] succeeds exactly when the post exists and the caller
    is its author; for a post that does not exist it answers 404, for a post
    of somebody else 403, and in both cases the database is untouched. *)
Theorem delete_post_by_author_only
    (db : DB) (current_user : User.t) (post_id : Z) :
  let r := delete_post db current_user post_id in
  (fst r = Ok "Post deleted successfully"%string
   <-> exists post, find_post db post_id = Some post /\
                    Post.author_id post = User.id current_user) /\
  (find_post db post_id = None ->
   r = (HTTPException 404 "Post not found", db)) /\
  (forall post, find_post db post_id = Some post ->
                Post.author_id post <> User.id current_user ->
                r = (HTTPException 403 "Not authorized to delete this post",
                     db)).
Proof.
  cbv zeta. unfold delete_post.
  destruct (find_post db post_id) as [post |] eqn:Hfind.
  - destruct (Post.author_id post =? User.id current_user) eqn:E;
      cbn [negb fst].
    + apply Z.eqb_eq in E. split; [| split].
      * split; [intros _; exists post; tauto | reflexivity].
      * discriminate.
      * intros p Hp. inversion Hp. subst p. congruence.
    + apply Z.eqb_neq in E. split; [| split].
      * split; [discriminate |]. intros [p [Hp Ha]]. inversion Hp. subst p.
        congruence.
      * discriminate.
      * reflexivity.
  - cbn [fst]. split; [| split].
    + split; [discriminate |]. intros [p [Hp _]]. discriminate.
    + reflexivity.
    + discriminate.
Qed.

(* ------------------------------------------------------------------ *)
(** ** Updates change one row *)

Lemma find_map_same {A : Type} (c : A -> bool) (g : A -> A) (l : list A) :
  (forall x, c (g x) = c x) -> find c (map g l) = option_map g (find c l).
Proof.
  intros H. induction l as [| x l IH]; simpl; [reflexivity |].
  rewrite H. destruct (c x); [reflexivity | exact IH].
Qed.

Lemma assign_if_truthy_applied (field : option string) (stored : string) :
  field_applied field stored (assign_if_truthy field stored).
Proof.
  unfold field_applied, assign_if_truthy. split.
  - intros s -> Hs. apply String.eqb_neq in Hs. rewrite Hs. reflexivity.
  - intros [-> | ->]; reflexivity.
Qed.

(** X21: [update_post] by the author of an existing post is answered 500
    whatever it does.  When the media file cannot be written the database is
    as it was.  Otherwise the update is committed before the failing
    [to_dict]: the rows with the post's id are rewritten and nothing else is
    touched; a rewritten post keeps its id, author, type and creation time,
    so ownership cannot be changed by an update; each of title, body and
    category is replaced by a supplied non-empty text and kept otherwise;
    the media reference is kept without a file and points at the written
    file with one; [updated_at] is the reading of the clock. *)
Theorem update_post_rewrites_one_post
    (db : DB) (current_user : User.t) (post_id : Z) (post : Post.t)
    (title content category : option string) (media : option UploadFile)
    (uuid : string) (now : Z) :
  find_post db post_id = Some post ->
  Post.author_id post = User.id current_user ->
  let r := update_post db current_user post_id title content category
                       media uuid now in
  let db' := snd r in
  fst r = internal_error /\
  (upload_written media = false -> db' = db) /\
  (upload_written media = true ->
   db' = with_posts db (posts db') /\
   Forall2 (fun p p' =>
              if Post.id p =? post_id
              then post_rewritten title content category media uuid now p p'
              else p' = p)
           (posts db) (posts db') /\
   exists post',
     find_post db' post_id = Some post' /\
     post_rewritten title content category media uuid now post post').
Proof.
  intros Hfind Hauthor. cbv zeta.
  destruct (find_post_id _ _ _ Hfind) as [Hid _].
  unfold update_post. rewrite Hfind, Hauthor, Z.eqb_refl. cbn [negb].
  destruct (upload_written media); cbn [negb fst snd];
    [| split; [reflexivity | split; [reflexivity | discriminate]]].
  split; [reflexivity |]. split; [discriminate |]. intros _.
  match goal with
  | |- context [update_post_row (Post.id post) ?w db] => set (write := w)
  end.
  assert (Hw : forall p,
             post_rewritten title content category media uuid now p (write p)).
  { intros p. unfold post_rewritten, write. cbn.
    do 4 (split; [reflexivity |]).
    do 3 (split; [apply assign_if_truthy_applied |]).
    split; [intros ->; reflexivity |]. split; [| reflexivity].
    intros f ->. unfold upload_url, stored_path.
    destruct (String.eqb (Post.post_type p) "video"); reflexivity. }
  unfold update_post_row. cbn [posts with_posts]. rewrite Hid.
  split; [reflexivity |]. split.
  - apply Forall2_map_r. intros p.
    destruct (Post.id p =? post_id); [apply Hw | reflexivity].
  - unfold find_post in *. cbn [posts with_posts]. rewrite find_map_same.
    + rewrite Hfind. cbn [option_map]. rewrite Hid, Z.eqb_refl.
      eexists. split; [reflexivity | apply Hw].
    + intros p. destruct (Post.id p =? post_id) eqn:E; [| exact E].
      unfold write. cbn [Post.id]. exact E.
Qed.

Lemma update_post_rewrites_one_post_witness :
  let r := update_post scenario_db alice 1 (Some "Hello again"%string)
             (Some ""%string) None (Some (mkUploadFile "sun.set.JPG" true))
             "0003" 9 in
  fst r = internal_error /\
  posts (snd r)
  = [Post.mk 1 "Hello again" "First post" "blog" "sports"
             "/uploads/images/0003.JPG" 1 4 9] /\
  update_post scenario_db alice 1 (Some "Hello again"%string) (Some ""%string)
    None (Some (mkUploadFile "sun.set/JPG" true)) "0003" 9
  = (internal_error, scenario_db).
Proof.
  pose proof (update_post_rewrites_one_post scenario_db alice 1
                (Post.mk 1 "Hello" "First post" "blog" "sports" "" 1 4 5)
                (Some "Hello again"%string) (Some ""%string) None
                (Some (mkUploadFile "sun.set.JPG" true)) "0003" 9) as H.
  cbv zeta in H. destruct H as [H1 _]; [reflexivity | reflexivity |].
  split; [exact H1 |]. split; reflexivity.
Defined.

(** X22: [update_user_profile] is answered 500 whatever it does.  When the
    avatar file cannot be written the database is as it was.  Otherwise, in
    a reachable database and for a stored caller, the update is committed
    before the failing [to_dict]: the caller's row keeps its id, email,
    username, password hash and creation time, so the caller is still found
    by the same username and the same id afterwards; full name and bio are
    replaced by a supplied non-empty text and kept otherwise; the avatar
    reference is kept without a file and points at the written file with
    one; every other user row and every other table is as it was. *)
Theorem update_user_profile_keeps_identity
    (db : DB) (current_user : User.t) (full_name bio : option string)
    (avatar : option UploadFile) (uuid : string) :
  reachable db ->
  In current_user (users db) ->
  let r := update_user_profile db current_user full_name bio avatar uuid in
  fst r = internal_error /\
  (upload_written avatar = false -> snd r = db) /\
  (upload_written avatar = true ->
   exists u',
     profile_rewritten full_name bio avatar uuid current_user u' /\
     find_user_by_id (snd r) (User.id current_user) = Some u' /\
     get_current_user (snd r) (User.username current_user) = Ok u' /\
     snd r = with_users db (users (snd r)) /\
     Forall2 (fun u v => if User.id u =? User.id current_user
                         then profile_rewritten full_name bio avatar uuid u v
                         else v = u)
             (users db) (users (snd r))).
Proof.
  intros Hr Hcu. cbv zeta.
  destruct (reachable_consistent db Hr)
    as [[Hids _] [_ [[_ Hnames] _]]].
  unfold update_user_profile. cbv zeta.
  destruct (upload_written avatar); cbn [negb fst snd];
    [| split; [reflexivity | split; [reflexivity | discriminate]]].
  match goal with
  | |- context [update_user (User.id current_user) ?w db] =>
      set (write := w)
  end.
  assert (Hedit : forall u,
             profile_rewritten full_name bio avatar uuid u (write u)).
  { intros u. unfold profile_rewritten, write. cbn.
    do 5 (split; [reflexivity |]).
    do 2 (split; [apply assign_if_truthy_applied |]).
    split; [intros ->; reflexivity |]. intros f ->. reflexivity. }
  set (g := fun u => if User.id u =? User.id current_user
                     then write u else u).
  assert (Hdb : update_user (User.id current_user) write db
                = with_users db (map g (users db))) by reflexivity.
  rewrite Hdb.
  assert (Hfind : find_user_by_id (with_users db (map g (users db)))
                    (User.id current_user) = Some (write current_user)).
  { unfold find_user_by_id. cbn [users with_users].
    rewrite find_map_same.
    - change (find (fun u => User.id u =? User.id current_user) (users db))
        with (find_user_by_id db (User.id current_user)).
      assert (find_user_by_id db (User.id current_user) = Some current_user)
        as ->.
      { unfold find_user_by_id.
        apply (find_by_unique_key User.id Z.eqb);
          [apply Z.eqb_eq | exact Hids | exact Hcu]. }
      cbn. unfold g. rewrite Z.eqb_refl. reflexivity.
    - intros u. unfold g.
      destruct (User.id u =? User.id current_user) eqn:E; exact E. }
  split; [rewrite Hfind; reflexivity |]. split; [discriminate |]. intros _.
  exists (write current_user).
  split; [apply Hedit |]. split; [exact Hfind |]. split.
  - unfold get_current_user, find_user_by_username. cbn [users with_users].
    rewrite find_map_same.
    + change (find (fun u => String.eqb (User.username u)
                                (User.username current_user)) (users db))
        with (find_user_by_username db (User.username current_user)).
      assert (find_user_by_username db (User.username current_user)
              = Some current_user) as ->.
      { unfold find_user_by_username.
        apply (find_by_unique_key User.username String.eqb);
          [apply String.eqb_eq | exact Hnames | exact Hcu]. }
      cbn. unfold g. rewrite Z.eqb_refl. reflexivity.
    + intros u. unfold g. destruct (User.id u =? User.id current_user);
        reflexivity.
  - split; [reflexivity |]. cbn [users with_users].
    apply Forall2_map_r. intros u. unfold g.
    destruct (User.id u =? User.id current_user); [apply Hedit | reflexivity].
Qed.

Lemma update_user_profile_keeps_identity_witness :
  let r := update_user_profile scenario_db bob (Some "Robert"%string) None
             (Some (mkUploadFile "me.png" true)) "0002" in
  fst r = internal_error /\
  users (snd r)
  = [alice;
     User.mk 2 "bob@example.org" "bob" "Robert" "secret-b" ""
             "/uploads/images/0002.png" 2] /\
  update_user_profile scenario_db bob (Some "Robert"%string) None
    (Some (mkUploadFile "x.b/c" true)) "0002"
  = (internal_error, scenario_db).
Proof.
  pose proof (update_user_profile_keeps_identity scenario_db bob
                (Some "Robert"%string) None
                (Some (mkUploadFile "me.png" true)) "0002") as H.
  cbv zeta in H. destruct H as [H1 _].
  - exists scenario_env, scenario_events. reflexivity.
  - right. left. reflexivity.
  - split; [exact H1 |]. split; reflexivity.
Defined.
(* ------------------------------------------------------------------ *)
(** ** More on search *)

Lemma lower_contains_pattern (q : string) :
  lower (contains_pattern q) = contains_pattern (lower q).
Proof.
  unfold contains_pattern.
  change ("%" ++ q ++ "%")%string with (String "%" (q ++ "%")%string).
  cbn [lower]. rewrite lower_app. reflexivity.
Qed.

Lemma ilike_same_case (column column' q q' : string) :
  lower column = lower column' -> lower q = lower q' ->
  ilike column (contains_pattern q) = ilike column' (contains_pattern q').
Proof.
  intros Hc Hq. unfold ilike.
  rewrite !lower_contains_pattern, Hc, Hq. reflexivity.
Qed.

(** X23: the post search ignores letter case (of A-Z) in the query: two
    queries that are the same text up to the case of their letters select
    the same rows in the same order and get the same answer, wildcards or
    not. *)
Theorem search_ignores_query_case
    (db : DB) (current_user : User.t) (q q' search_type : string)
    (skip limit : Z) :
  same_text q q' ->
  search_posts_rows db q skip limit = search_posts_rows db q' skip limit /\
  search db current_user q search_type skip limit
  = search db current_user q' search_type skip limit.
Proof.
  intros Hq. apply same_text_lower in Hq.
  assert (Hp : filter (fun p => ilike (Post.title p) (contains_pattern q)
                                || ilike (Post.content p)
                                         (contains_pattern q)) (posts db)
               = filter (fun p => ilike (Post.title p) (contains_pattern q')
                                  || ilike (Post.content p)
                                           (contains_pattern q')) (posts db)).
  { apply filter_ext. intros p.
    rewrite (ilike_same_case _ (Post.title p) q q' eq_refl Hq).
    rewrite (ilike_same_case _ (Post.content p) q q' eq_refl Hq).
    reflexivity. }
  assert (Hu : filter (fun u => ilike (User.username u) (contains_pattern q)
                                || ilike (User.full_name u)
                                         (contains_pattern q)) (users db)
               = filter (fun u => ilike (User.username u)
                                        (contains_pattern q')
                                  || ilike (User.full_name u)
                                           (contains_pattern q')) (users db)).
  { apply filter_ext. intros u.
    rewrite (ilike_same_case _ (User.username u) q q' eq_refl Hq).
    rewrite (ilike_same_case _ (User.full_name u) q q' eq_refl Hq).
    reflexivity. }
  unfold search, search_posts_rows. rewrite Hp, Hu. split; reflexivity.
Qed.

Lemma search_ignores_query_case_witness :
  (search_posts_rows crowded_db "HeL" 3 4
   = search_posts_rows crowded_db "hEl" 3 4 /\
   search crowded_db alice "HeL" "posts" 3 4
   = search crowded_db alice "hEl" "posts" 3 4) /\
  map Post.id (search_posts_rows crowded_db "HeL" 3 4) = [18; 17; 16; 15].
Proof.
  split; [| vm_compute; reflexivity].
  apply (search_ignores_query_case crowded_db alice "HeL" "hEl" "posts" 3 4).
  repeat (constructor; [unfold same_letter; cbn; lia |]). constructor.
Defined.

Lemma filter_all {A : Type} (f : A -> bool) (l : list A) :
  (forall x, f x = true) -> filter f l = l.
Proof.
  intros H. induction l as [| x l IH]; simpl; [reflexivity |].
  rewrite H, IH. reflexivity.
Qed.

Lemma like_percent_more (pat s : string) :
  like pat s = true -> like (String "%" pat) s = true.
Proof. intros H. rewrite like_percent, H. reflexivity. Qed.

(** X24: the empty query, and the query "%", select every post: with no
    rows skipped and a limit that is not below the number of posts, the rows
    the post search selects are all the posts of the table, each once,
    newest first. *)
Theorem search_empty_query_selects_all
    (db : DB) (q : string) (limit : Z) :
  q = ""%string \/ q = "%"%string ->
  Z.of_nat (List.length (posts db)) <= limit ->
  Permutation (posts db) (search_posts_rows db q 0 limit) /\
  StronglySorted (fun a b => Post.created_at b <= Post.created_at a)
    (search_posts_rows db q 0 limit).
Proof.
  intros Hq Hlimit.
  assert (Hall : forall column, ilike column (contains_pattern q) = true).
  { intros column. unfold ilike.
    destruct Hq as [-> | ->]; cbn [contains_pattern append lower];
      change (lower_ascii "%") with "%"%char.
    - apply like_percent_more. apply like_percent_only.
    - apply like_percent_more. apply like_percent_more.
      apply like_percent_only. }
  assert (Hrows : search_posts_rows db q 0 limit
                  = order_by_desc Post.created_at (posts db)).
  { unfold search_posts_rows. rewrite filter_all;
      [| intros p; rewrite Hall; reflexivity].
    unfold paginate.
    replace (limit <? 0) with false by (symmetry; apply Z.ltb_ge; lia).
    cbn [Z.to_nat skipn]. apply firstn_all2.
    rewrite <- (Permutation_length (order_by_desc_perm Post.created_at
                                      (posts db))). lia. }
  rewrite Hrows. split; [apply order_by_desc_perm | apply order_by_desc_sorted].
Qed.

Lemma search_empty_query_selects_all_witness :
  (Permutation (posts crowded_db) (search_posts_rows crowded_db "%" 0 21) /\
   StronglySorted (fun a b => Post.created_at b <= Post.created_at a)
     (search_posts_rows crowded_db "%" 0 21)) /\
  List.length (search_posts_rows crowded_db "%" 0 21) = 21%nat.
Proof.
  split; [| vm_compute; reflexivity].
  apply (search_empty_query_selects_all crowded_db "%" 21).
  - right. reflexivity.
  - vm_compute. discriminate.
Defined.
(* ------------------------------------------------------------------ *)
(** ** Refused and failed requests *)

Ltac settle_status :=
  cbn [fst snd status];
  split;
  [ cbn; tauto
  | first [ intros _; reflexivity
          | let H := fresh in
            intros H; cbn in H;
            repeat (destruct H as [H | H]; [discriminate H |]);
            destruct H ] ].

(** X27: every request is answered 200, 400, 401, 403, 404 or 500, and a
    request refused with 400, 401, 403 or 404 leaves the database exactly as
    it was: each check that refuses comes before the handler's first
    write.  An answer of 500 gives no such assurance. *)
Theorem refused_requests_change_nothing
    (env : Env) (n : nat) (db : DB) (ev : Event) :
  In (fst (handle env n db ev)) [200; 400; 401; 403; 404; 500] /\
  (In (fst (handle env n db ev)) [400; 401; 403; 404] ->
   snd (handle env n db ev) = db).
Proof.
  destruct ev as [[u p | e u f p] | subject req].
  - open_handle. unfold of_option, internal_error, option_map.
    handler_cases; settle_status.
  - open_handle. unfold of_option, internal_error, option_map.
    handler_cases; settle_status.
  - unfold handle, get_current_user.
    destruct (find_user_by_username db subject) as [cu |];
      [| settle_status].
    destruct req; open_handle; unfold of_option, internal_error, option_map;
      cbn [relationship]; cbv zeta; handler_cases; settle_status.
Qed.

(** A request answered 500 after its commit: the message of [bob] is
    stored. *)
Lemma failed_request_with_a_write :
  let r := handle scenario_env 3 scenario_db
             (Authenticated "bob" (SendMessage 1 "hi")) in
  fst r = 500 /\ messages (snd r) = [Message.mk 1 "hi" 2 1 6 false].
Proof. vm_compute. split; reflexivity. Qed.

(** Answers of the server around the scenario: the registration of [alice]
    (stored) 500, a delete by somebody else 403, a token for nobody 401, a
    like 500, a follow 200. *)
Lemma scenario_answers :
  fst (handle scenario_env 0 empty_db
         (Public (Register "alice@example.org" "alice" "Alice" "secret-a")))
  = 500 /\
  fst (handle scenario_env 3 scenario_db (Authenticated "bob" (DeletePost 1)))
  = 403 /\
  fst (handle scenario_env 3 scenario_db (Authenticated "carol" GetMessages))
  = 401 /\
  fst (handle scenario_env 3 scenario_db (Authenticated "bob" (LikePost 1)))
  = 500 /\
  fst (handle scenario_env 3 scenario_db (Authenticated "bob" (FollowUser "alice")))
  = 200.
Proof. vm_compute. repeat split. Qed.
(* ------------------------------------------------------------------ *)
(** ** The stored data of a reachable database *)

(** X28: in every database the server reaches, each of the four tables with
    an integer primary key holds no key twice and no key below 1, also after
    posts have been deleted and keys handed out again; hence every stored
    post is the row [find_post] gives for its id. *)
Theorem stored_rows_have_unique_keys (db : DB) :
  reachable db ->
  keys_unique db /\ keys_positive db /\
  forall p, In p (posts db) -> find_post db (Post.id p) = Some p.
Proof.
  intros Hr. destruct (reachable_consistent db Hr) as [Hk [Hp _]].
  split; [exact Hk |]. split; [exact Hp |].
  intros p Hin. destruct Hk as [_ [Hposts _]]. unfold find_post.
  apply (find_by_unique_key Post.id Z.eqb);
    [apply Z.eqb_eq | exact Hposts | exact Hin].
Qed.

Lemma stored_rows_have_unique_keys_witness :
  let db := snd (delete_post crowded_db alice 21) in
  List.length (posts db) = 20%nat /\
  keys_unique db /\ keys_positive db /\
  forall p, In p (posts db) -> find_post db (Post.id p) = Some p.
Proof.
  split; [vm_compute; reflexivity |].
  apply (stored_rows_have_unique_keys (snd (delete_post crowded_db alice 21))).
  exists scenario_env,
    (Public (Register "alice@example.org" "alice" "Alice" "secret-a")
     :: repeat (Authenticated "alice"
                  (CreatePost "Hello" "First post" "blog" "sports" None)) 21
     ++ [Authenticated "alice" (DeletePost 21)]).
  vm_compute. reflexivity.
Defined.

(** X29: in every database the server reaches, the like, save and follow
    tables hold no row twice, nobody follows themself, and every foreign key
    that is not NULL (of a like, a save, a follow, a post's author, a
    comment's author and post, a message's sender and receiver) points at a
    stored row. *)
Theorem stored_references_resolve (db : DB) :
  reachable db ->
  edges_unique db /\ no_self_follow db /\ references_resolve db.
Proof.
  intros Hr.
  destruct (reachable_consistent db Hr) as [_ [_ [_ [He [Hrefs Hself]]]]].
  split; [exact He |]. split; [exact Hself | exact Hrefs].
Qed.

Lemma stored_references_resolve_witness :
  let db := snd (delete_post
                   (snd (create_comment
                           (snd (follow_user
                                   (snd (like_post scenario_db bob 1))
                                   bob "alice"))
                           bob 1 "Nice" 10))
                   alice 1) in
  post_likes db = [] /\
  user_followers db = [(2, 1)] /\
  map Comment.post_id (comments db) = [None] /\
  edges_unique db /\ no_self_follow db /\ references_resolve db.
Proof.
  split; [reflexivity |]. split; [reflexivity |]. split; [reflexivity |].
  apply (stored_references_resolve
           (snd (delete_post
                   (snd (create_comment
                           (snd (follow_user
                                   (snd (like_post scenario_db bob 1))
                                   bob "alice"))
                           bob 1 "Nice" 10))
                   alice 1))).
  exists scenario_env,
    (scenario_events
     ++ [Authenticated "bob" (LikePost 1);
         Authenticated "bob" (FollowUser "alice");
         Authenticated "bob" (CreateComment 1 "Nice");
         Authenticated "alice" (DeletePost 1)]).
  reflexivity.
Defined.
